(** * mrm: the task and alias runner of [src/index.js]

    A shallow embedding of the runner: JavaScript values and truthiness, the
    object store with the closure cell of the config getter, the host
    facilities ([fs], [path], [glob], [requireg], the module loader, the
    console) as an interface, and every function of [index.js] on top of
    them.  The theorems at the end relate the functions to the prose
    specification of the repository. *)

From Stdlib Require Import ZArith Ascii String.
From stdpp Require Import base option list strings gmap fin_maps.

Set Default Proof Using "Type".

(** ** JavaScript values *)

(** A location of the object store. *)
Abbreviation loc := nat.

(** The values that the mappings of a run hold.  Plain objects live in the
    store and are denoted by references, so that two names of one object
    share its updates.  An array is the immutable list of the names it
    holds: the runner walks it ([forEach]), and a read or a write of one of
    its properties is left unmodelled.  Numbers are integers; [NaN] and
    fractions are left out.  No value is a function. *)
Inductive value :=
  | VUndef
  | VNull
  | VBool (b : bool)
  | VNum (n : Z)
  | VStr (s : string)
  | VArr (items : list string)
  | VRef (l : loc).

(** The content of a plain object: its own string-keyed properties.  The
    prototype of a plain object is [Object.prototype]. *)
Abbreviation obj := (gmap string value).

(** What a read [o[k]] gives: a value, or the member of [Object.prototype]
    of that name, a function (or, for [__proto__], [Object.prototype]
    itself), which the object inherits. *)
Inductive got :=
  | Got (v : value)
  | Inherited (member : string).
Coercion Got : value >-> got.

(** A value stands for the read that gives it, also as a component of a
    pair whose type is known. *)
Global Arguments pair {A B} & a b.

(** The names that [Object.prototype] defines. *)
Definition Object_prototype : list string :=
  [ "constructor"; "__defineGetter__"; "__defineSetter__"; "hasOwnProperty";
    "__lookupGetter__"; "__lookupSetter__"; "isPrototypeOf";
    "propertyIsEnumerable"; "toString"; "valueOf"; "__proto__";
    "toLocaleString" ].

Definition inherits (k : string) : bool := existsb (String.eqb k) Object_prototype.
Global Arguments inherits : simpl never.

(** [ToBoolean]: what [if (x)] and [!x] test. *)
Class Truthy (A : Type) := truthy : A → bool.
Global Hint Mode Truthy ! : typeclass_instances.

Global Instance string_truthy : Truthy string := λ s,
  match s with "" => false | _ => true end.

Global Instance value_truthy : Truthy value := λ v,
  match v with
  | VUndef | VNull => false
  | VBool b => b
  | VNum n => negb (n =? 0)%Z
  | VStr s => truthy s
  | VArr _ | VRef _ => true
  end.

(** Functions and objects are truthy. *)
Global Instance got_truthy : Truthy got := λ g,
  match g with Got v => truthy v | Inherited _ => true end.

(** [T | undefined], with [None] for [undefined]. *)
Global Instance option_truthy `{Truthy A} : Truthy (option A) := λ o,
  match o with Some a => truthy a | None => false end.

(** [a || b] *)
Definition js_or (a b : value) : value := if truthy a then a else b.

(** [v === undefined] *)
Definition is_undefined (v : got) : bool :=
  match v with Got VUndef => true | _ => false end.

(** [o[k]] on the content of a plain object: the own property of that name
    when there is one, else what [Object.prototype] has under that name,
    else [undefined]. *)
Definition prop (o : obj) (k : string) : got :=
  match o !! k with
  | Some v => Got v
  | None => if inherits k then Inherited k else Got VUndef
  end.

(** [Object.assign(target, ...sources)] on contents: every source in turn
    overwrites the entries of the target it names. *)
Definition Object_assign (target : obj) (sources : list obj) : obj :=
  foldl (λ acc src, src ∪ acc) target sources.

(** [s.startsWith(p)] *)
Definition startsWith (s p : string) : bool := String.prefix p s.

(** [s.replace(/^p/, '')] for a literal [p]: drop [p] from the front of [s]
    when it is there. *)
Definition replace_prefix (p s : string) : string :=
  if String.prefix p s
  then String.substring (String.length p) (String.length s - String.length p) s
  else s.

(** [xs.join(sep)] *)
Definition join (sep : string) (xs : list string) : string := String.concat sep xs.

(** ** Errors *)

(** Modelled from the spec: the error classes of [./errors], which is not
    among the sources.  An error carries the message and the extra data that
    [index.js] builds it with: the task name for an unknown task, the list
    of missing names for an undefined option, the message alone for an
    unknown alias.  Next to them, the [TypeError] of the language and
    whatever a loaded module throws. *)
Inductive exn :=
  | MrmUnknownTask (message : string) (taskName : string)
  | MrmUnknownAlias (message : string)
  | MrmUndefinedOption (message : string) (unknown : list string)
  | TypeError
  | Thrown (what : value).

(** How a computation ends: with a result, with an exception, or, for
    [Unmodelled], with a step of the language that this development does
    not model (a read or a write of a property of a string, a number, a
    boolean or an array, a change of the prototype of an object), after
    which it says nothing of the run. *)
Inductive outcome (A : Type) :=
  | Ok (a : A)
  | Throw (e : exn)
  | Unmodelled.
Arguments Ok {A} & a.
Arguments Throw {A} e.
Arguments Unmodelled {A}.

(** ** The store *)

(** A cell is a plain object, or the environment of one config getter: the
    variable [options] that the closures [values], [require] and [defaults]
    of [getConfigGetter] share. *)
Inductive cell :=
  | CObj (props : obj)
  | CEnv (options : loc).

Abbreviation store := (list cell).

(** The content of the object at [l] (empty when [l] is no object). *)
Definition object_at (h : store) (l : loc) : obj :=
  match h !! l with Some (CObj o) => o | _ => ∅ end.

(** The machine state: the store, and the world outside it (file system,
    console, everything a task touches). *)
Record state (W : Type) := State { heap : store; world : W }.
Arguments State {W} heap world.
Arguments heap {W} s.
Arguments world {W} s.

(** Computations that read and write the state and may throw. *)
Definition M (W A : Type) : Type := state W → outcome A * state W.

Definition ret {W A} (a : A) : M W A := λ s, (Ok a, s).
Definition throw {W A} (e : exn) : M W A := λ s, (Throw e, s).
Definition unmodelled {W A} : M W A := λ s, (Unmodelled, s).
Definition bind {W A B} (m : M W A) (k : A → M W B) : M W B := λ s,
  match m s with
  | (Ok a, s') => k a s'
  | (Throw e, s') => (Throw e, s')
  | (Unmodelled, s') => (Unmodelled, s')
  end.

Notation "'let!' x ':=' m 'in' k" := (bind m (λ x, k))
  (at level 10, x name, m at level 100, k at level 200).
Notation "m ';;;' k" := (bind m (λ _, k))
  (at level 100, k at level 200, right associativity).

(** [items.forEach(fn)] on an array: in index order, a throw ends the loop. *)
Fixpoint forEach {W A} (items : list A) (fn : A → M W unit) : M W unit :=
  match items with
  | [] => ret tt
  | item :: rest => fn item ;;; forEach rest fn
  end.

Definition gets {W A} (f : state W → A) : M W A := λ s, (Ok (f s), s).
Definition modify_heap {W} (f : store → store) : M W unit := λ s,
  (Ok tt, State (f (heap s)) (world s)).
Definition modify_world {W} (f : W → W) : M W unit := λ s,
  (Ok tt, State (heap s) (f (world s))).

(** A new cell, at the end of the store. *)
Definition alloc {W} (c : cell) : M W loc := λ s,
  (Ok (length (heap s)), State (heap s ++ [c]) (world s)).

(** [v[k]]: a read through a reference to a plain object; [null] and
    [undefined] have no properties to read.  What a string, a number, a
    boolean, an array or a function has under a name is not modelled. *)
Definition getProp {W} (v : got) (k : string) : M W got :=
  match v with
  | Got (VRef l) => gets (λ s, prop (object_at (heap s) l) k)
  | Got VUndef | Got VNull => throw TypeError
  | _ => unmodelled
  end.

(** [v[k] = x]: a write through a reference to a plain object updates the
    object in place, for everyone who holds the reference.  The name
    [__proto__], when the object has no property of its own under it, is
    the accessor of [Object.prototype]: it makes no property, ignores a
    primitive, and for anything else changes the prototype, which is not
    modelled.  [null] and [undefined] have no properties to write; a write
    to any other value is not modelled. *)
Definition setProp {W} (v : got) (k : string) (x : value) : M W unit :=
  match v with
  | Got (VRef l) => λ s,
      let object := object_at (heap s) l in
      let write := State (<[l := CObj (<[k := x]> object)]> (heap s)) (world s) in
      match prop object k with
      | Inherited member =>
          if String.eqb member "__proto__" then
            match x with
            | VUndef | VBool _ | VNum _ | VStr _ => (Ok tt, s)
            | VNull | VArr _ | VRef _ => (Unmodelled, s)
            end
          else (Ok tt, write)
      | Got _ => (Ok tt, write)
      end
  | Got VUndef | Got VNull => throw TypeError
  | _ => unmodelled
  end.

(** lodash's [get(object, path, defaultValue)] for a one-key path. *)
Definition lodash_get (object : obj) (path : string) (defaultValue : value) : got :=
  let result := prop object path in
  if is_undefined result then Got defaultValue else result.

(** lodash's [isLength(v)]: a number that is a non-negative integer, up
    to [Number.MAX_SAFE_INTEGER]. *)
Definition isLength (v : got) : bool :=
  match v with
  | Got (VNum n) => (0 <=? n)%Z && (n <=? 9007199254740991)%Z
  | _ => false
  end.

(** lodash's [isArrayLike(o)] for an object that is no function: what it
    has under [length] is a length. *)
Definition isArrayLike (o : obj) : bool := isLength (prop o "length").

(** ** The host *)

(** What [require] gives for a task: a function with an optional
    [description] property. *)
Record taskModule (W : Type) := TaskModule {
  description : value;
  entry : loc → value → M W unit
}.
Arguments description {W} t.
Arguments entry {W} t config argv.

(** The facilities of Node and of the packages [index.js] requires.  The
    probes read the world; [require] is given at the two shapes the runner
    loads.  Loading a task runs the code of its module, which may read and
    write the store and the world and may throw; loading a configuration
    mapping is a lookup that may throw. *)
Class Host (W : Type) := {
  path_resolve : string → string → string;
  path_dirname : string → string;
  path_basename : string → string;
  fs_existsSync : W → string → bool;
  glob_sync : W → string → list string;
  requireg_resolve : W → string → option string;
  require_task : string → M W (taskModule W);
  require_config : W → string → outcome obj;
  console_log : string → W → W;
  console_warn : string → W → W;
  chalk_yellow : string → string;
  chalk_cyan : string → string
}.

(** ** The program: [src/index.js] *)

Section index_js.
Context {W : Type} {H : Host W}.

(** [firstResult(items, fn)]: the first truthy result of [fn] over the
    truthy items. *)
Fixpoint firstResult {A B} `{!Truthy A, !Truthy B}
    (items : list A) (fn : A → option B) : option B :=
  match items with
  | [] => None
  | item :: rest =>
      if negb (truthy item) then firstResult rest fn
      else
        let result := fn item in
        if truthy result then result else firstResult rest fn
  end.

(** [tryFile(directories, filename)] *)
Definition tryFile (w : W) (directories : list string) (filename : string)
    : option string :=
  firstResult directories (λ dir,
    let filepath := path_resolve dir filename in
    if fs_existsSync w filepath then Some filepath else None).

(** [tryResolve(...names)]; a name is a string or the [undefined] that
    [tryFile] returned, and [requireg.resolve] is only ever applied to a
    truthy one. *)
Definition tryResolve (w : W) (names : list (option string)) : option string :=
  firstResult names (λ name, name ≫= requireg_resolve w).

(** [getAllAliases(options)]; the default [{}] of the call is a new object
    each time. *)
Definition getAllAliases (options : loc) : M W got :=
  let! empty := alloc (CObj ∅) in
  gets (λ s, lodash_get (object_at (heap s) options) "aliases" (VRef empty)).

(** [getConfigGetter(options)]: the getter is the cell of its variable
    [options]; [config.values], [config.require] and [config.defaults]
    are the three closures over it. *)
Definition getConfigGetter (options : loc) : M W loc := alloc (CEnv options).

(** The variable [options] of the getter [config]; calling a method of
    something that is no getter is a [TypeError]. *)
Definition read_options (config : loc) : M W loc := λ s,
  match heap s !! config with
  | Some (CEnv options) => (Ok options, s)
  | _ => (Throw TypeError, s)
  end.

(** [config(prop, defaultValue)], the deprecated call of the getter itself,
    for a [prop] that is one key. *)
Definition config_call (config : loc) (prop : string) (defaultValue : value)
    : M W got :=
  let! options := read_options config in
  modify_world (console_warn
    "Warning: calling config as a function is deprecated. Use config.values() instead") ;;;
  gets (λ s, lodash_get (object_at (heap s) options) prop defaultValue).


(** [config.require(...names)] *)
Definition require (config : loc) (names : list string) : M W loc :=
  let! options := read_options config in
  let! current := gets (λ s, object_at (heap s) options) in
  let unknown := List.filter (λ name, is_undefined (prop current name)) names in
  if (0 <? length unknown)%nat then
    throw (MrmUndefinedOption
             ("Required config options are missed: " +:+ join ", " unknown +:+ ".")
             unknown)
  else ret config.

(** [config.defaults(defaultOptions)]: a new object is built and the
    variable [options] of the getter is set to it. *)
Definition defaults (config : loc) (defaultOptions : loc) : M W loc :=
  let! options := read_options config in
  let! merged := gets (λ s,
    Object_assign ∅ [object_at (heap s) defaultOptions; object_at (heap s) options]) in
  let! target := alloc (CObj merged) in
  modify_heap (λ h, <[config := CEnv target]> h) ;;;
  ret config.

(** [runTask(taskName, directories, options, argv)]; what [tryResolve]
    returns is [undefined] or a truthy path. *)
Definition runTask (taskName : string) (directories : list string)
    (options : loc) (argv : value) : M W unit :=
  let! modulePath := gets (λ s,
    tryResolve (world s)
      [ tryFile (world s) directories (taskName +:+ "/index.js");
        Some ("mrm-task-" +:+ taskName);
        Some taskName ]) in
  match modulePath with
  | None => throw (MrmUnknownTask ("Task “" +:+ taskName +:+ "” not found.") taskName)
  | Some modulePath =>
      modify_world (console_log (chalk_cyan ("Running " +:+ taskName +:+ "..."))) ;;;
      let! module := require_task modulePath in
      let! config := getConfigGetter options in
      entry module config argv
  end.

(** The rest of [runAlias] once the alias is found: the log line and the
    loop.  [forEach] is a method of arrays only: no other value has a
    function there to call. *)
Definition runAlias_tasks (aliasName : string) (tasks : got)
    (directories : list string) (options : loc) (argv : value) : M W unit :=
  modify_world (console_log (chalk_yellow ("Running alias " +:+ aliasName +:+ "..."))) ;;;
  match tasks with
  | Got (VArr tasks) => forEach tasks (λ name, runTask name directories options argv)
  | _ => throw TypeError
  end.

(** [runAlias(aliasName, directories, options, argv)] *)
Definition runAlias (aliasName : string) (directories : list string)
    (options : loc) (argv : value) : M W unit :=
  let! aliases := getAllAliases options in
  let! tasks := getProp aliases aliasName in
  if negb (truthy tasks) then
    throw (MrmUnknownAlias ("Alias “" +:+ aliasName +:+ "” not found."))
  else runAlias_tasks aliasName tasks directories options argv.

(** The first argument of [run]: [string | string[]]. *)
Inductive nameArg :=
  | One (name : string)
  | Many (names : list string).

(** [run(name, directories, options, argv)] at one name. *)
Definition run1 (name : string) (directories : list string)
    (options : loc) (argv : value) : M W unit :=
  let! aliases := getAllAliases options in
  let! entry := getProp aliases name in
  if truthy entry then runAlias name directories options argv
  else runTask name directories options argv.

(** [run(name, directories, options, argv)] *)
Definition run (name : nameArg) (directories : list string)
    (options : loc) (argv : value) : M W unit :=
  match name with
  | Many names => forEach names (λ n, run1 n directories options argv)
  | One name => run1 name directories options argv
  end.

(** The arrow function that [getConfigFromCommandLine] gives to [forEach],
    at a key that is a string, on the own entries of the new object
    [options].  The assignment [options[k] = value] makes the property [k],
    except for [k = '__proto__'], the accessor of [Object.prototype], which
    makes none.  (Given an object or [null], the accessor changes the
    prototype of [options]; its own entries, which are what [getConfig]
    copies with [Object.assign], are the same.) *)
Definition addOption (key : string) (value : value) (options : obj) : obj :=
  if startsWith key "config:" then
    let k := replace_prefix "config:" key in
    if String.eqb k "__proto__" then options else <[k := value]> options
  else options.

(** [getConfigFromCommandLine(argv)], on the content of [argv] and of the
    result.  lodash's [forEach] takes an [argv] that is array-like for an
    array: it walks the indices [0 .. length - 1] and hands the index, a
    number, to the arrow function as the key, where [key.startsWith] is
    then no function.  Of any other [argv] it visits every own entry
    once. *)
Definition getConfigFromCommandLine (argv : obj) : outcome obj :=
  if isArrayLike argv then
    match prop argv "length" with
    | Got (VNum Z0) => Ok ∅
    | _ => Throw TypeError
    end
  else Ok (map_fold addOption ∅ argv).

(** [getConfigFromFile(directories, filename)] *)
Definition getConfigFromFile (w : W) (directories : list string)
    (filename : string) : outcome obj :=
  let filepath := tryFile w directories filename in
  match filepath with
  | None => Ok ∅
  | Some filepath => require_config w filepath
  end.

(** [getConfig(directories, filename, argv)] *)
Definition getConfig (w : W) (directories : list string) (filename : string)
    (argv : obj) : outcome obj :=
  match getConfigFromFile w directories filename with
  | Ok fromFile =>
      match getConfigFromCommandLine argv with
      | Ok fromArgv => Ok (Object_assign ∅ [fromFile; fromArgv])
      | Throw e => Throw e
      | Unmodelled => Unmodelled
      end
  | Throw e => Throw e
  | Unmodelled => Unmodelled
  end.

(** The arrow function that [getAllTasks] gives to [tasks.forEach]. *)
Definition addTask (allTasks : got) (filename : string) : M W unit :=
  let taskName := path_basename (path_dirname filename) in
  let! known := getProp allTasks taskName in
  if negb (truthy known) then
    let! module := require_task filename in
    setProp allTasks taskName (js_or (description module) (VStr ""))
  else ret tt.

(** [getAllTasks(directories, options)] *)
Definition getAllTasks (directories : list string) (options : loc) : M W got :=
  let! allTasks := getAllAliases options in
  forEach directories (λ dir,
    let! tasks := gets (λ s, glob_sync (world s) (dir +:+ "/*/index.js")) in
    forEach tasks (addTask allTasks)) ;;;
  ret allTasks.

End index_js.

(** ** A small host to run the program on *)

Module Demo.

(** The world: the files and installed packages, and what was written to
    the console. *)
Record world := World {
  files : list string;
  packages : list (string * string);
  console : list string
}.

Definition is_absolute (p : string) : bool := String.prefix "/" p.

(** [path.resolve(dir, file)] below the working directory [/cwd], without
    normalisation. *)
Definition resolve (dir file : string) : string :=
  if is_absolute file then file
  else if is_absolute dir then dir +:+ "/" +:+ file
  else match dir with
       | "" => "/cwd/" +:+ file
       | _ => "/cwd/" +:+ dir +:+ "/" +:+ file
       end.

(** The text before the last slash of a path, if it has a slash. *)
Fixpoint before_last_slash (p : string) : option string :=
  match p with
  | "" => None
  | String c rest =>
      match before_last_slash rest with
      | Some d => Some (String c d)
      | None => if Ascii.eqb c "/"%char then Some "" else None
      end
  end.

Definition dirname (p : string) : string := default "." (before_last_slash p).

(** The text after the last slash of a path. *)
Fixpoint after_last_slash (p acc : string) : string :=
  match p with
  | "" => acc
  | String c rest =>
      if Ascii.eqb c "/"%char then after_last_slash rest ""
      else after_last_slash rest (acc +:+ String c "")
  end.

Definition basename (p : string) : string := after_last_slash p "".

(** Glob patterns in which [*] stands for a run of characters other than
    the slash. *)
Fixpoint glob_match (pattern : string) : string → bool :=
  match pattern with
  | "" => λ s, match s with "" => true | _ => false end
  | String c pattern' =>
      if Ascii.eqb c "*"%char then
        fix star (s : string) : bool :=
          glob_match pattern' s ||
          match s with
          | String d s' => if Ascii.eqb d "/"%char then false else star s'
          | "" => false
          end
      else λ s,
        match s with
        | String d s' => Ascii.eqb c d && glob_match pattern' s'
        | "" => false
        end
  end.

Definition exists_file (w : world) (p : string) : bool :=
  existsb (String.eqb p) (files w).

(** [requireg.resolve]: an existing file by its path, a package by its name;
    nothing for the empty name. *)
Definition resolve_module (w : world) (name : string) : option string :=
  if negb (truthy name) then None
  else if exists_file w name then Some name
  else snd <$> List.find (λ entry, String.eqb name (fst entry) && truthy (snd entry))
                 (packages w).

Definition log (line : string) (w : world) : world :=
  World (files w) (packages w) (console w ++ [line]).

(** A host over [world], given what [require] loads at each path.  The
    modules of this host run no code while they are loaded: loading leaves
    the store and the world as they are. *)
Definition host (tasks : string → outcome (taskModule world))
    (configs : string → outcome obj) : Host world := {|
  path_resolve := resolve;
  path_dirname := dirname;
  path_basename := basename;
  fs_existsSync := exists_file;
  glob_sync := λ w pattern, List.filter (glob_match pattern) (files w);
  requireg_resolve := resolve_module;
  require_task := λ p s, (tasks p, s);
  require_config := λ _ p, configs p;
  console_log := log;
  console_warn := log;
  chalk_yellow := λ s, s;
  chalk_cyan := λ s, s
|}.

(** A task that writes one line, and one that throws. *)
Definition says (description : value) (line : string) : taskModule world :=
  TaskModule world description (λ _ _, modify_world (log line)).

Definition fails (what : string) : taskModule world :=
  TaskModule world VUndef (λ _ _, throw (Thrown (VStr what))).

Definition not_found {A} (p : string) : outcome A :=
  Throw (Thrown (VStr ("Cannot find module " +:+ p))).

(** The host with no module to load. *)
Definition plain : Host world := host not_found not_found.

(** The configuration file of the examples, to be found under [/b]. *)
Definition config_files (p : string) : outcome obj :=
  if String.eqb p "/b/config.json"
  then Ok {[ "a" := VNum 1; "b" := VNum 1 ]}
  else not_found p.

Definition with_config : Host world := host not_found config_files.

(** The tasks [a] and [b] under [/tasks] and the task of a package. *)
Definition task_files (p : string) : outcome (taskModule world) :=
  if String.eqb p "/tasks/a/index.js" then Ok (says (VStr "First") "a ran")
  else if String.eqb p "/tasks/b/index.js" then Ok (says VUndef "b ran")
  else if String.eqb p "/node_modules/mrm-task-pkg/index.js" then Ok (says VUndef "pkg ran")
  else not_found p.

(** The same, with a task [a] that throws. *)
Definition failing_task_files (p : string) : outcome (taskModule world) :=
  if String.eqb p "/tasks/a/index.js" then Ok (fails "a failed")
  else task_files p.

Definition with_tasks : Host world := host task_files not_found.
Definition with_failing_a : Host world := host failing_task_files not_found.

(** The same, with a module of [a] that throws while it is loaded. *)
Definition broken_task_files (p : string) : outcome (taskModule world) :=
  if String.eqb p "/tasks/a/index.js" then Throw (Thrown (VStr "a is broken"))
  else task_files p.

Definition with_broken_a : Host world := host broken_task_files not_found.




Definition tasks_world : world :=
  World ["/tasks/a/index.js"; "/tasks/b/index.js"]
        [("mrm-task-pkg", "/node_modules/mrm-task-pkg/index.js")]
        [].

(** A store with the options [{aliases: {setup: ['a', 'b']}}] at 0, their
    alias mapping at 1 and an empty [argv] at 2. *)
Definition alias_store : store :=
  [ CObj {[ "aliases" := VRef 1 ]}; CObj {[ "setup" := VArr ["a"; "b"] ]}; CObj ∅ ].

(** The same store once [getAllTasks] has run over [/tasks]: the alias
    mapping at 1 has gained the two tasks, and the unused default object of
    [getAllAliases] is at 3. *)
Definition scanned_store : store :=
  [ CObj {[ "aliases" := VRef 1 ]};
    CObj {[ "setup" := VArr ["a"; "b"]; "a" := VStr "First"; "b" := VStr "" ]};
    CObj ∅;
    CObj ∅ ].


(** A store with the options [{x: 1}] at 0 and a getter over them at 1. *)
Definition x_store : store := [ CObj {[ "x" := VNum 1 ]}; CEnv 0 ].

(** The same with [x] set to [undefined]. *)
Definition undefined_x_store : store := [ CObj {[ "x" := VUndef ]}; CEnv 0 ].


(** A store with the options [{}] at 0 and a getter over them at 1. *)
Definition empty_getter_store : store := [ CObj ∅; CEnv 0 ].

Definition quiet : world := World [] [] [].

(** [config.json] at the root, under the working directory and under [/b]. *)
Definition config_world : world :=
  World ["/config.json"; "/cwd/config.json"; "/b/config.json"] [] [].

(** A store with the options [{a: 1, b: 2}] that [getConfig] made at 0, a
    getter over them at 1, and the defaults [{a: 9, c: 3}] of a task at 2. *)
Definition configured_store : store :=
  [ CObj {[ "a" := VNum 1; "b" := VNum 2 ]}; CEnv 0;
    CObj {[ "a" := VNum 9; "c" := VNum 3 ]} ].


(** A store with an alias that lists an alias:
    [{aliases: {all: ['setup', 'a'], setup: ['a']}}]. *)
Definition nested_store : store :=
  [ CObj {[ "aliases" := VRef 1 ]};
    CObj {[ "all" := VArr ["setup"; "a"]; "setup" := VArr ["a"] ]};
    CObj ∅ ].

(** A store whose aliases have the names of the tasks under [/tasks]:
    [{aliases: {a: ['b'], b: []}}]. *)
Definition shadowing_store : store :=
  [ CObj {[ "aliases" := VRef 1 ]};
    CObj {[ "a" := VArr ["b"]; "b" := VArr [] ]};
    CObj ∅ ].

(** The options [{}]. *)
Definition bare_store : store := [ CObj ∅ ].




(** A task [a] in two directories, with a description in the second only,
    and a task [b] without one. *)
Definition two_directories : world :=
  World ["/one/a/index.js"; "/two/a/index.js"; "/two/b/index.js"] [] [].

Definition two_directories_files (p : string) : outcome (taskModule world) :=
  if String.eqb p "/one/a/index.js" then Ok (says VUndef "a of one ran")
  else if String.eqb p "/two/a/index.js" then Ok (says (VStr "Second") "a of two ran")
  else if String.eqb p "/two/b/index.js" then Ok (says VUndef "b ran")
  else not_found p.

Definition with_two_directories : Host world := host two_directories_files not_found.


(** The options [{aliases: null}], and an empty [argv] at 1. *)
Definition null_aliases_store : store := [ CObj {[ "aliases" := VNull ]}; CObj ∅ ].

(** The options [{aliases: {a: []}}]: an alias without tasks that has the
    name of a task. *)
Definition empty_alias_store : store :=
  [ CObj {[ "aliases" := VRef 1 ]}; CObj {[ "a" := VArr [] ]}; CObj ∅ ].

End Demo.

(** ** The vocabulary of the specification *)

Section vocabulary.
Context {W : Type} {H : Host W}.


(** The named keys that a mapping does not hold. *)
Definition absent_keys (current : obj) (names : list string) : list string :=
  List.filter (λ name,
    match current !! name with None => true | Some _ => false end) names.

(** The named keys under which a mapping holds nothing or [undefined]. *)
Definition undefined_keys (current : obj) (names : list string) : list string :=
  List.filter (λ name,
    match current !! name with None | Some VUndef => true | Some _ => false end) names.

(** The candidate module identifiers of a task, in the order of their
    priority: the path [tryFile] found, if any, the package name, the bare
    name. *)
Definition candidates (w : W) (directories : list string) (taskName : string)
    : list (option string) :=
  [ tryFile w directories (taskName +:+ "/index.js");
    Some ("mrm-task-" +:+ taskName);
    Some taskName ].

(** What the host resolves a candidate to, if it resolves. *)
Definition resolved (w : W) (candidate : option string) : option string :=
  candidate ≫= requireg_resolve w.

(** The host resolves no empty identifier, and to no empty path. *)
Definition resolver_sane (w : W) : Prop :=
  ∀ name p, requireg_resolve w name = Some p → name ≠ "" ∧ p ≠ "".

(** Running a list of tasks in order: each task starts in the state its
    predecessor left, and the first failure is the result, with no task
    after it run. *)
Inductive in_order {A} (step : A → M W unit)
    : list A → state W → outcome unit * state W → Prop :=
  | in_order_done s :
      in_order step [] s (Ok tt, s)
  | in_order_failed task rest s e s' :
      step task s = (Throw e, s') →
      in_order step (task :: rest) s (Throw e, s')
  | in_order_unmodelled task rest s s' :
      step task s = (Unmodelled, s') →
      in_order step (task :: rest) s (Unmodelled, s')
  | in_order_next task rest s u s' r :
      step task s = (Ok u, s') →
      in_order step rest s' r →
      in_order step (task :: rest) s r.

(** The alias mapping of the options at [options]: the object at [l] that
    the options hold under [aliases], with its content; or, when they hold
    nothing there, the empty mapping, which [getAllAliases] puts in a new
    object at the end of the store. *)
Inductive alias_mapping (h : store) (options : loc) : loc → obj → Prop :=
  | aliases_given opts l aliases :
      h !! options = Some (CObj opts) →
      opts !! "aliases" = Some (VRef l) →
      h !! l = Some (CObj aliases) →
      alias_mapping h options l aliases
  | aliases_missing opts :
      h !! options = Some (CObj opts) →
      prop opts "aliases" = VUndef →
      alias_mapping h options (length h) ∅.

(** What [getAllAliases(options)] evaluates to in a store: the value under
    [aliases], or the new empty object. *)
Definition aliases_of (h : store) (options : loc) : got :=
  lodash_get (object_at h options) "aliases" (VRef (length h)).

(** What [getAllAliases(options)[name]] evaluates to in a store. *)
Definition alias_entry (h : store) (options : loc) (name : string) : outcome got :=
  match aliases_of h options with
  | Got (VRef l) => Ok (prop (object_at h l) name)
  | Got VUndef | Got VNull => Throw TypeError
  | _ => Unmodelled
  end.

(** The name of the task an entry module belongs to. *)
Definition task_of (filename : string) : string :=
  path_basename (path_dirname filename).

(** The entry modules that the scan of the directories finds, in the order
    it finds them. *)
Definition discovered (w : W) (directories : list string) : list string :=
  flat_map (λ dir, glob_sync w (dir +:+ "/*/index.js")) directories.

(** The modules of [filenames] are plain in the world [w]: loading one
    does nothing but give [modules filename], a module or what it throws,
    whatever the store; the store and the world stay as they are. *)
Definition plain_modules (w : W) (modules : string → outcome (taskModule W))
    (filenames : list string) : Prop :=
  Forall (λ filename,
    ∀ h, require_task filename (State h w) = (modules filename, State h w)) filenames.

(** The loop of [getAllTasks] on the content of [allTasks], over plain
    modules: the outcome, and the content when the loop ends. *)
Fixpoint discover (modules : string → outcome (taskModule W))
    (filenames : list string) (allTasks : obj) : outcome unit * obj :=
  match filenames with
  | [] => (Ok tt, allTasks)
  | filename :: rest =>
      if negb (truthy (prop allTasks (task_of filename))) then
        match modules filename with
        | Ok module =>
            discover modules rest
              (<[task_of filename := js_or (description module) (VStr "")]> allTasks)
        | Throw e => (Throw e, allTasks)
        | Unmodelled => (Unmodelled, allTasks)
        end
      else discover modules rest allTasks
  end.

(** The module at a path loads. *)
Definition loads (modules : string → outcome (taskModule W)) (filename : string)
    : Prop :=
  ∃ module, modules filename = Ok module.


(** What [getAllTasks] lists for the entry module at a path: the
    description that the module declares, or the empty string. *)
Definition listed_description (modules : string → outcome (taskModule W))
    (filename : string) : value :=
  match modules filename with
  | Ok module => js_or (description module) (VStr "")
  | _ => VStr ""
  end.

(** What is listed for the entry modules of one task among [filenames], in
    the order of [filenames]. *)
Definition descriptions_of (modules : string → outcome (taskModule W))
    (filenames : list string) (taskName : string) : list value :=
  map (listed_description modules)
    (List.filter (λ filename, String.eqb (task_of filename) taskName) filenames).

End vocabulary.

(** * Properties *)

(** ** Truthiness and [firstResult] *)

Lemma truthy_string (s : string) : truthy s = true ↔ s ≠ "".
Proof. destruct s; cbn; split; intros; congruence. Qed.

Section firstResult_facts.
Context {W : Type} {H : Host W}.

Lemma firstResult_truthy {A B} `{!Truthy A, !Truthy B}
    (items : list A) (fn : A → option B) (r : B) :
  firstResult items fn = Some r → truthy r = true.
Proof.
  induction items as [|item rest IH]; cbn; [done|].
  destruct (truthy item); cbn; [|done].
  destruct (fn item) as [b|] eqn:Hfn; cbn; [|done].
  destruct (truthy b) eqn:Hb; [|done].
  intros [= <-]. done.
Qed.

End firstResult_facts.

(** ** The path resolver *)

Section tryFile_facts.
Context {W : Type} {H : Host W}.




End tryFile_facts.



(** ** The config builder *)

Lemma substring_all (s : string) : String.substring 0 (String.length s) s = s.
Proof. induction s as [|c s IH]; cbn; [done|]. by rewrite IH. Qed.

Lemma append_cons (c : ascii) (p r : string) :
  String c p +:+ r = String c (p +:+ r).
Proof. reflexivity. Qed.

Lemma append_nil (r : string) : "" +:+ r = r.
Proof. reflexivity. Qed.

Lemma prefix_app (p r : string) : String.prefix p (p +:+ r) = true.
Proof.
  induction p as [|c p IH].
  - rewrite append_nil. by destruct r.
  - rewrite append_cons. cbn.
    destruct (Ascii.ascii_dec c c); [done|congruence].
Qed.

Lemma prefix_inv (p s : string) : String.prefix p s = true → ∃ r, s = p +:+ r.
Proof.
  revert s. induction p as [|c p IH]; intros s.
  - intros _. by exists s.
  - destruct s as [|d s]; cbn; [done|].
    destruct (Ascii.ascii_dec c d) as [->|]; [|done].
    intros [r ->]%IH. by exists r.
Qed.

Lemma replace_prefix_app (p r : string) : replace_prefix p (p +:+ r) = r.
Proof.
  unfold replace_prefix. rewrite prefix_app.
  induction p as [|c p IH].
  - rewrite append_nil. cbn. rewrite Nat.sub_0_r. apply substring_all.
  - rewrite append_cons. cbn. exact IH.
Qed.

Lemma string_app_inj (p a b : string) : p +:+ a = p +:+ b → a = b.
Proof.
  induction p as [|c p IH]; [done|].
  rewrite !append_cons. intros [= ?]; auto.
Qed.

(** What the loop of [getConfigFromCommandLine] leaves in [options]: under
    a key [k], what [argv] holds under [config:k]; and nothing under
    [__proto__]. *)
Lemma addOption_lookup (argv : obj) (k : string) :
  map_fold addOption ∅ argv !! k
  = if String.eqb k "__proto__" then None else argv !! ("config:" +:+ k).
Proof.
  revert k.
  apply (map_fold_weak_ind
           (λ (options : obj) (m : obj),
              ∀ k, options !! k
                   = if String.eqb k "__proto__" then None
                     else m !! ("config:" +:+ k))).
  - intros k. rewrite !lookup_empty. by destruct (String.eqb k "__proto__").
  - intros key v m options Hkey IH k. unfold addOption, startsWith.
    destruct (String.prefix "config:" key) eqn:Hp.
    + apply prefix_inv in Hp as [j ->]. rewrite replace_prefix_app.
      destruct (String.eqb_spec j "__proto__") as [->|Hj].
      * rewrite IH. destruct (String.eqb_spec k "__proto__") as [->|Hk]; [done|].
        rewrite lookup_insert_ne; [done|].
        intros Heq. apply string_app_inj in Heq. congruence.
      * destruct (decide (j = k)) as [<-|Hne].
        -- rewrite !lookup_insert_eq.
           by destruct (String.eqb_spec j "__proto__").
        -- rewrite (lookup_insert_ne options) by done. rewrite IH.
           destruct (String.eqb k "__proto__"); [done|].
           rewrite lookup_insert_ne; [done|].
           intros Heq. by apply string_app_inj in Heq.
    + rewrite IH. destruct (String.eqb k "__proto__"); [done|].
      rewrite lookup_insert_ne; [done|].
      intros ->. by rewrite prefix_app in Hp.
Qed.

Lemma getConfigFromCommandLine_plain (argv : obj) :
  isArrayLike argv = false →
  getConfigFromCommandLine argv = Ok (map_fold addOption ∅ argv).
Proof. unfold getConfigFromCommandLine. by intros ->. Qed.


Lemma getConfigFromCommandLine_array_like (argv : obj) (n : Z) :
  argv !! "length" = Some (VNum n) →
  (0 ≤ n ≤ 9007199254740991)%Z →
  getConfigFromCommandLine argv
  = if (n =? 0)%Z then Ok ∅ else Throw TypeError.
Proof.
  intros Hlength [Hlo Hhi].
  unfold getConfigFromCommandLine, isArrayLike, prop. rewrite Hlength. cbn.
  apply Z.leb_le in Hlo, Hhi. rewrite Hlo, Hhi. cbn.
  by destruct n.
Qed.

(** C4 fails on an [argv] that has a number under [length], and on the key
    [config:__proto__].  For an [argv] that is not array-like the result of
    [getConfigFromCommandLine] holds, under a key [k] other than
    [__proto__], exactly what [argv] holds under [config:k], value
    untouched: the prefixed entries with the prefix stripped, and nothing
    for any other key of [argv]; so [{ "config:a": 1, "b": 2 }] gives
    [{ a: 1 }].  With [length: 2] next to [config:a] the call throws a
    [TypeError]; with [length: 0] it returns the empty mapping, the entry
    of [config:a] lost; and [config:__proto__] makes no entry. *)
Theorem getConfigFromCommandLine_entries :
  (∀ argv : obj,
     isArrayLike argv = false →
     ∃ options : obj,
       getConfigFromCommandLine argv = Ok options
       ∧ (∀ k, k ≠ "__proto__" → options !! k = argv !! ("config:" +:+ k))
       ∧ options !! "__proto__" = None)
  ∧ getConfigFromCommandLine {[ "config:a" := VNum 1; "b" := VNum 2 ]}
    = Ok {[ "a" := VNum 1 ]}
  ∧ (∀ (argv : obj) (n : Z),
       argv !! "length" = Some (VNum n) →
       (0 < n ≤ 9007199254740991)%Z →
       getConfigFromCommandLine argv = Throw TypeError)
  ∧ (∀ argv : obj,
       argv !! "length" = Some (VNum 0) →
       getConfigFromCommandLine argv = Ok ∅)
  ∧ getConfigFromCommandLine {[ "config:a" := VNum 1; "length" := VNum 2 ]}
    = Throw TypeError
  ∧ getConfigFromCommandLine {[ "config:a" := VNum 1; "length" := VNum 0 ]}
    = Ok ∅
  ∧ getConfigFromCommandLine {[ "config:__proto__" := VNum 1 ]} = Ok ∅.
Proof.
  split; [|split; [reflexivity|split; [|split; [|repeat split; reflexivity]]]].
  - intros argv Hplain. exists (map_fold addOption ∅ argv).
    split; [by apply getConfigFromCommandLine_plain|]. split.
    + intros k Hk. rewrite addOption_lookup.
      by destruct (String.eqb_spec k "__proto__").
    + by rewrite addOption_lookup.
  - intros argv n Hlength [Hlo Hhi].
    rewrite (getConfigFromCommandLine_array_like _ n Hlength) by lia.
    destruct (Z.eqb_spec n 0); [lia|done].
  - intros argv Hlength.
    by rewrite (getConfigFromCommandLine_array_like _ 0 Hlength).
Qed.


Section getConfig_facts.
Context {W : Type} {H : Host W}.

Lemma Object_assign_two (a b : obj) : Object_assign ∅ [a; b] = b ∪ a.
Proof. unfold Object_assign. cbn. by rewrite (right_id_L ∅ (∪)). Qed.

Lemma getConfig_run (w : W) (directories : list string) (filename : string)
    (argv fromFile : obj) :
  getConfigFromFile w directories filename = Ok fromFile →
  getConfig w directories filename argv
  = match getConfigFromCommandLine argv with
    | Ok fromArgv => Ok (fromArgv ∪ fromFile)
    | Throw e => Throw e
    | Unmodelled => Unmodelled
    end.
Proof.
  intros Hfile. unfold getConfig. rewrite Hfile.
  destruct (getConfigFromCommandLine argv); [|done..].
  by rewrite Object_assign_two.
Qed.


End getConfig_facts.


(** ** The config getter *)

Section getter_facts.
Context {W : Type} {H : Host W}.

Lemma object_at_lookup (h : store) (l : loc) (o : obj) :
  h !! l = Some (CObj o) → object_at h l = o.
Proof. unfold object_at. by intros ->. Qed.


(** What [require] reports, for names that [Object.prototype] does not
    define: the names under which the mapping holds nothing or
    [undefined]. *)
Lemma undefined_keys_read (current : obj) (names : list string) :
  Forall (λ name, inherits name = false) names →
  List.filter (λ name, is_undefined (prop current name)) names
  = undefined_keys current names.
Proof.
  unfold undefined_keys. induction 1 as [|name rest Hname _ IH]; cbn; [done|].
  rewrite IH. unfold prop. rewrite Hname.
  by destruct (current !! name) as [[]|].
Qed.

Lemma require_run (s : state W) (config options : loc) (current : obj)
    (names : list string) :
  heap s !! config = Some (CEnv options) →
  heap s !! options = Some (CObj current) →
  require config names s =
    match List.filter (λ name, is_undefined (prop current name)) names with
    | [] => (Ok config, s)
    | unknown =>
        (Throw (MrmUndefinedOption
                  ("Required config options are missed: " +:+ join ", " unknown +:+ ".")
                  unknown), s)
    end.
Proof.
  intros Hconfig Hoptions.
  unfold require, read_options, bind, gets. rewrite Hconfig. cbn.
  rewrite (object_at_lookup _ _ _ Hoptions).
  by destruct (List.filter _ names).
Qed.

(** C6, as amended: for names that [Object.prototype] does not define,
    [require] fails with [MrmUndefinedOption], carrying exactly the named
    keys under which the mapping of the getter holds nothing or holds
    [undefined], when there is such a key, and returns the getter itself
    when there is none. *)
Theorem require_reports_undefined_keys (s : state W) (config options : loc)
    (current : obj) (names : list string) :
  heap s !! config = Some (CEnv options) →
  heap s !! options = Some (CObj current) →
  Forall (λ name, inherits name = false) names →
  require config names s =
    match undefined_keys current names with
    | [] => (Ok config, s)
    | unknown =>
        (Throw (MrmUndefinedOption
                  ("Required config options are missed: " +:+ join ", " unknown +:+ ".")
                  unknown), s)
    end.
Proof.
  intros Hconfig Hoptions Hnames.
  by rewrite (require_run _ _ _ _ _ Hconfig Hoptions), (undefined_keys_read _ _ Hnames).
Qed.

End getter_facts.


Lemma require_reports_undefined_keys_witness :
  Demo.x_store !! 1 = Some (CEnv 0)
  ∧ Demo.x_store !! 0 = Some (CObj {[ "x" := VNum 1 ]})
  ∧ Forall (λ name, inherits name = false) ["x"; "y"]
  ∧ require 1 ["x"; "y"] (State Demo.x_store Demo.quiet)
    = (Throw (MrmUndefinedOption "Required config options are missed: y." ["y"]),
       State Demo.x_store Demo.quiet)
  ∧ require 1 ["x"] (State Demo.x_store Demo.quiet)
    = (Ok 1, State Demo.x_store Demo.quiet).
Proof.
  assert (Hnames : Forall (λ name, inherits name = false) ["x"; "y"])
    by (repeat constructor).
  assert (Hx : Forall (λ name, inherits name = false) ["x"])
    by (repeat constructor).
  split; [reflexivity|]. split; [reflexivity|]. split; [exact Hnames|]. split.
  - exact (require_reports_undefined_keys
             (State Demo.x_store Demo.quiet) 1 0 {[ "x" := VNum 1 ]} ["x"; "y"]
             eq_refl eq_refl Hnames).
  - exact (require_reports_undefined_keys
             (State Demo.x_store Demo.quiet) 1 0 {[ "x" := VNum 1 ]} ["x"]
             eq_refl eq_refl Hx).
Defined.

(** C6 as the specification states it fails on a mapping that holds a key
    with the value [undefined]: no named key is absent from [{x: undefined}],
    and [require('x')] throws all the same, carrying [x].  It fails the
    other way on a name that [Object.prototype] defines: [constructor] is
    absent from [{}], and [require('constructor')] returns the getter. *)
Lemma require_throws_on_present_undefined_key :
  absent_keys {[ "x" := VUndef ]} ["x"] = []
  ∧ Demo.undefined_x_store !! 1 = Some (CEnv 0)
  ∧ Demo.undefined_x_store !! 0 = Some (CObj {[ "x" := VUndef ]})
  ∧ require 1 ["x"] (State Demo.undefined_x_store Demo.quiet)
    = (Throw (MrmUndefinedOption "Required config options are missed: x." ["x"]),
       State Demo.undefined_x_store Demo.quiet)
  ∧ absent_keys ∅ ["constructor"] = ["constructor"]
  ∧ Demo.empty_getter_store !! 1 = Some (CEnv 0)
  ∧ Demo.empty_getter_store !! 0 = Some (CObj ∅)
  ∧ require 1 ["constructor"] (State Demo.empty_getter_store Demo.quiet)
    = (Ok 1, State Demo.empty_getter_store Demo.quiet)
  ∧ require 1 ["x"] (State Demo.undefined_x_store Demo.quiet)
    ≠ (Ok 1, State Demo.undefined_x_store Demo.quiet).
Proof.
  do 8 (split; [reflexivity|]).
  intros Heq. vm_compute in Heq. discriminate Heq.
Qed.

(** ** The runner *)

Section runner_facts.
Context {W : Type} {H : Host W}.

Lemma forEach_in_order {A} (step : A → M W unit) (items : list A) (s : state W)
    (r : outcome unit * state W) :
  forEach items step s = r ↔ in_order step items s r.
Proof.
  split.
  - intros <-. revert s. induction items as [|item rest IH]; intros s; cbn.
    + constructor.
    + unfold bind. destruct (step item s) as [[u|e|] s'] eqn:Hstep.
      * eapply in_order_next; [exact Hstep|apply IH].
      * by apply in_order_failed.
      * by apply in_order_unmodelled.
  - induction 1 as [s|task rest s e s' Hstep|task rest s s' Hstep
                     |task rest s u s' r Hstep _ IH]; cbn.
    + done.
    + unfold bind. by rewrite Hstep.
    + unfold bind. by rewrite Hstep.
    + unfold bind. by rewrite Hstep.
Qed.

Lemma object_at_alloc (h : store) (l : loc) :
  object_at (h ++ [CObj ∅]) l = object_at h l.
Proof.
  unfold object_at. destruct (decide (l < length h)) as [Hlt|Hge].
  - by rewrite lookup_app_l.
  - rewrite lookup_app_r by lia. rewrite (lookup_ge_None_2 h l) by lia.
    by destruct (l - length h) as [|[|n]].
Qed.

(** The two reads that open [run] and [runAlias], and what follows them. *)
Lemma bind_alias_entry {B} (options : loc) (name : string) (k : got → M W B)
    (s : state W) :
  (let! aliases := getAllAliases options in
   let! entry := getProp aliases name in
   k entry) s
  = match alias_entry (heap s) options name with
    | Ok entry => k entry (State (heap s ++ [CObj ∅]) (world s))
    | Throw e => (Throw e, State (heap s ++ [CObj ∅]) (world s))
    | Unmodelled => (Unmodelled, State (heap s ++ [CObj ∅]) (world s))
    end.
Proof.
  unfold getAllAliases, alias_entry, aliases_of, bind, alloc, gets. cbn.
  rewrite object_at_alloc.
  destruct (lodash_get (object_at (heap s) options) "aliases" (VRef (length (heap s))))
    as [[]|]; cbn; try done.
  unfold gets. cbn. by rewrite object_at_alloc.
Qed.

Lemma alias_entry_alloc (h : store) (options : loc) (name : string) :
  alias_entry (h ++ [CObj ∅]) options name = alias_entry h options name.
Proof.
  unfold alias_entry, aliases_of, lodash_get. rewrite object_at_alloc.
  destruct (is_undefined (prop (object_at h options) "aliases")).
  - rewrite object_at_alloc. unfold object_at.
    rewrite (lookup_ge_None_2 h (length h)) by lia.
    rewrite (lookup_ge_None_2 h (length (h ++ [CObj ∅]))); [done|].
    rewrite length_app. lia.
  - destruct (prop (object_at h options) "aliases") as [[]|]; try done.
    by rewrite object_at_alloc.
Qed.

Lemma prop_own (o : obj) (k : string) (v : value) : o !! k = Some v → prop o k = v.
Proof. unfold prop. by intros ->. Qed.

Lemma alias_mapping_read (h : store) (options l : loc) (aliases : obj) :
  alias_mapping h options l aliases →
  aliases_of h options = VRef l
  ∧ (h ++ [CObj ∅]) !! l = Some (CObj aliases)
  ∧ ∀ name, alias_entry h options name = Ok (prop aliases name).
Proof.
  unfold alias_entry, aliases_of, lodash_get.
  intros [opts l' aliases' Hopts Hl Haliases|opts Hopts Hnone];
    rewrite (object_at_lookup _ _ _ Hopts).
  - rewrite (prop_own _ _ _ Hl). cbn. split; [done|]. split.
    + rewrite lookup_app_l; [done|]. by eapply lookup_lt_Some.
    + intros name. by rewrite (object_at_lookup _ _ _ Haliases).
  - rewrite Hnone. cbn. split; [done|]. split.
    + by rewrite list_lookup_middle.
    + intros name. unfold object_at. by rewrite (lookup_ge_None_2 h (length h)).
Qed.

Lemma runAlias_unfold (aliasName : string) (directories : list string)
    (options : loc) (argv : value) (s : state W) :
  runAlias aliasName directories options argv s
  = match alias_entry (heap s) options aliasName with
    | Ok tasks =>
        if truthy tasks
        then runAlias_tasks aliasName tasks directories options argv
               (State (heap s ++ [CObj ∅]) (world s))
        else (Throw (MrmUnknownAlias ("Alias “" +:+ aliasName +:+ "” not found.")),
              State (heap s ++ [CObj ∅]) (world s))
    | Throw e => (Throw e, State (heap s ++ [CObj ∅]) (world s))
    | Unmodelled => (Unmodelled, State (heap s ++ [CObj ∅]) (world s))
    end.
Proof.
  unfold runAlias. rewrite bind_alias_entry.
  destruct (alias_entry (heap s) options aliasName) as [tasks|e|]; [|done..].
  by destruct (truthy tasks).
Qed.

(** C1: for an alias whose entry is the list [tasks], [runAlias] logs its
    line and then runs [runTask] over [tasks] in list order: every task
    starts in the state the one before it left, having returned; the first
    task that throws ends the run, with what it threw and the state it left
    as the result, and no task after it is run. *)
Theorem runAlias_in_list_order (aliasName : string) (directories : list string)
    (options l : loc) (aliases : obj) (argv : value) (tasks : list string)
    (s : state W) (r : outcome unit * state W) :
  alias_mapping (heap s) options l aliases →
  aliases !! aliasName = Some (VArr tasks) →
  runAlias aliasName directories options argv s = r
  ↔ in_order (λ name, runTask name directories options argv) tasks
      (State (heap s ++ [CObj ∅])
         (console_log (chalk_yellow ("Running alias " +:+ aliasName +:+ "..."))
            (world s)))
      r.
Proof.
  intros (_ & _ & Hentry)%alias_mapping_read Htasks.
  rewrite runAlias_unfold, Hentry, (prop_own _ _ _ Htasks). cbn.
  unfold runAlias_tasks, bind, modify_world. cbn.
  apply forEach_in_order.
Qed.

Lemma tryResolve_none (w : W) (names : list (option string)) :
  Forall (λ name, resolved w name = None) names → tryResolve w names = None.
Proof.
  unfold tryResolve, resolved.
  induction 1 as [|name rest Hname _ IH]; cbn; [done|].
  rewrite Hname. cbn. by destruct (truthy name).
Qed.


Lemma runTask_unfold (taskName : string) (directories : list string)
    (options : loc) (argv : value) (s : state W) :
  runTask taskName directories options argv s
  = match tryResolve (world s) (candidates (world s) directories taskName) with
    | None =>
        (Throw (MrmUnknownTask ("Task “" +:+ taskName +:+ "” not found.") taskName), s)
    | Some modulePath =>
        match require_task modulePath
                (State (heap s)
                   (console_log (chalk_cyan ("Running " +:+ taskName +:+ "..."))
                      (world s))) with
        | (Ok module, s') =>
            entry module (length (heap s')) argv
              (State (heap s' ++ [CEnv options]) (world s'))
        | (Throw e, s') => (Throw e, s')
        | (Unmodelled, s') => (Unmodelled, s')
        end
    end.
Proof.
  unfold runTask, candidates, bind, gets. cbv beta iota.
  destruct (tryResolve (world s) _) as [modulePath|]; [|done].
  unfold modify_world, getConfigGetter, alloc. cbn.
  by destruct (require_task modulePath _) as [[module|e|] s'].
Qed.


(** C10 fails on a name that [Object.prototype] defines.  [run] at one
    name hands over to [runAlias] only when what it reads under the name in
    the alias mapping is truthy, and [runAlias], reading the same mapping,
    then reads the same and goes on to the tasks: the branch that throws
    [MrmUnknownAlias] is not taken.  A name under which the read is falsy
    goes to [runTask], which throws [MrmUnknownTask] when no candidate
    resolves; for such a name it is the call of [runAlias] itself that
    throws [MrmUnknownAlias].  But the read is truthy, too, for a name that
    has no entry in the alias mapping and that [Object.prototype] defines:
    with the options [{}], [run('toString')] does not go to [runTask]; it
    logs the line of an alias and throws a [TypeError]. *)
Theorem run_never_takes_UnknownAlias_branch (name : string)
    (directories : list string) (options : loc) (argv : value) (s : state W) :
  (let s1 := State (heap s ++ [CObj ∅]) (world s) in
   let s2 := State (heap s1 ++ [CObj ∅]) (world s) in
   match alias_entry (heap s) options name with
   | Throw e => run (One name) directories options argv s = (Throw e, s1)
   | Unmodelled => run (One name) directories options argv s = (Unmodelled, s1)
   | Ok entry =>
       if truthy entry then
         run (One name) directories options argv s
           = runAlias name directories options argv s1
         ∧ runAlias name directories options argv s1
           = runAlias_tasks name entry directories options argv s2
       else
         run (One name) directories options argv s
           = runTask name directories options argv s1
         ∧ (Forall (λ c, resolved (world s) c = None)
              (candidates (world s) directories name) →
            run (One name) directories options argv s
            = (Throw (MrmUnknownTask ("Task “" +:+ name +:+ "” not found.") name), s1))
         ∧ runAlias name directories options argv s
           = (Throw (MrmUnknownAlias ("Alias “" +:+ name +:+ "” not found.")), s1)
   end)
  ∧ alias_entry Demo.bare_store 0 "toString" = Ok (Inherited "toString")
  ∧ object_at (Demo.bare_store ++ [CObj ∅]) 1 !! "toString" = None
  ∧ run (H := Demo.plain) (One "toString") [] 0 VUndef
      (State Demo.bare_store Demo.quiet)
    = (Throw TypeError,
       State (Demo.bare_store ++ [CObj ∅; CObj ∅])
         (Demo.log "Running alias toString..." Demo.quiet)).
Proof.
  split; [|repeat split; reflexivity].
  intros s1 s2. unfold run, run1. rewrite bind_alias_entry. fold s1.
  destruct (alias_entry (heap s) options name) as [entry|e|] eqn:Hentry; [|done..].
  destruct (truthy entry) eqn:Htruthy.
  - split; [done|]. rewrite runAlias_unfold. cbn [heap world s1].
    by rewrite alias_entry_alloc, Hentry, Htruthy.
  - split; [done|]. split.
    + intros Hnone. rewrite runTask_unfold. cbn [heap world s1].
      by rewrite (tryResolve_none _ _ Hnone).
    + by rewrite runAlias_unfold, Hentry, Htruthy.
Qed.

End runner_facts.

Lemma demo_resolver_sane tasks configs (w : Demo.world) :
  resolver_sane (H := Demo.host tasks configs) w.
Proof.
  intros name p. cbn. unfold Demo.resolve_module.
  destruct (truthy name) eqn:Hname; cbn; [|done].
  apply truthy_string in Hname as Hne.
  destruct (Demo.exists_file w name).
  - intros [= <-]. done.
  - destruct (List.find _ (Demo.packages w)) as [entry|] eqn:Hfind; cbn; [|done].
    intros [= <-]. apply List.find_some in Hfind as [_ Hentry].
    apply andb_true_iff in Hentry as [_ Hp]. by apply truthy_string in Hp.
Qed.

Lemma demo_alias_mapping :
  alias_mapping Demo.alias_store 0 1 {[ "setup" := VArr ["a"; "b"] ]}.
Proof. by eapply aliases_given. Qed.

Lemma runAlias_in_list_order_witness :
  alias_mapping Demo.alias_store 0 1 {[ "setup" := VArr ["a"; "b"] ]}
  ∧ ({[ "setup" := VArr ["a"; "b"] ]} : obj) !! "setup" = Some (VArr ["a"; "b"])
  ∧ in_order (λ name, runTask (H := Demo.with_tasks) name ["/tasks"] 0 (VRef 2))
      ["a"; "b"]
      (State (Demo.alias_store ++ [CObj ∅])
         (Demo.log "Running alias setup..." Demo.tasks_world))
      (Ok tt,
       State (Demo.alias_store ++ [CObj ∅; CEnv 0; CEnv 0])
         (Demo.World (Demo.files Demo.tasks_world) (Demo.packages Demo.tasks_world)
            ["Running alias setup..."; "Running a..."; "a ran";
             "Running b..."; "b ran"]))
  ∧ in_order (λ name, runTask (H := Demo.with_failing_a) name ["/tasks"] 0 (VRef 2))
      ["a"; "b"]
      (State (Demo.alias_store ++ [CObj ∅])
         (Demo.log "Running alias setup..." Demo.tasks_world))
      (Throw (Thrown (VStr "a failed")),
       State (Demo.alias_store ++ [CObj ∅; CEnv 0])
         (Demo.World (Demo.files Demo.tasks_world) (Demo.packages Demo.tasks_world)
            ["Running alias setup..."; "Running a..."])).
Proof.
  split; [exact demo_alias_mapping|]. split; [reflexivity|]. split.
  - exact (proj1 (runAlias_in_list_order (H := Demo.with_tasks) "setup" ["/tasks"] 0 1
                    _ (VRef 2) ["a"; "b"] (State Demo.alias_store Demo.tasks_world) _
                    demo_alias_mapping eq_refl) eq_refl).
  - exact (proj1 (runAlias_in_list_order (H := Demo.with_failing_a) "setup" ["/tasks"] 0 1
                    _ (VRef 2) ["a"; "b"] (State Demo.alias_store Demo.tasks_world) _
                    demo_alias_mapping eq_refl) eq_refl).
Defined.



Lemma run_never_takes_UnknownAlias_branch_witness :
  Forall (λ c, resolved (H := Demo.with_tasks) Demo.tasks_world c = None)
    (candidates (H := Demo.with_tasks) Demo.tasks_world ["/tasks"] "nope")
  ∧ run (H := Demo.with_tasks) (One "nope") ["/tasks"] 0 (VRef 2)
      (State Demo.alias_store Demo.tasks_world)
    = (Throw (MrmUnknownTask "Task “nope” not found." "nope"),
       State (Demo.alias_store ++ [CObj ∅]) Demo.tasks_world).
Proof.
  assert (Hnone : Forall (λ c, resolved (H := Demo.with_tasks) Demo.tasks_world c = None)
                    (candidates (H := Demo.with_tasks) Demo.tasks_world ["/tasks"] "nope"))
    by (repeat constructor).
  split; [exact Hnone|].
  exact (proj1 (proj2 (proj1 (run_never_takes_UnknownAlias_branch (H := Demo.with_tasks)
                         "nope" ["/tasks"] 0 (VRef 2)
                         (State Demo.alias_store Demo.tasks_world)))) Hnone).
Defined.

(** ** Discovery *)

Section discovery_facts.
Context {W : Type} {H : Host W}.

Lemma plain_modules_app (w : W) (modules : string → outcome (taskModule W))
    (first rest : list string) :
  plain_modules w modules (first ++ rest)
  ↔ plain_modules w modules first ∧ plain_modules w modules rest.
Proof. apply Forall_app. Qed.

Lemma forEach_addTask (modules : string → outcome (taskModule W)) (l : loc)
    (filenames : list string) (h : store) (w : W) (allTasks : obj) :
  plain_modules w modules filenames →
  h !! l = Some (CObj allTasks) →
  forEach filenames (addTask (VRef l)) (State h w)
  = (fst (discover modules filenames allTasks),
     State (<[l := CObj (snd (discover modules filenames allTasks))]> h) w).
Proof.
  intros Hplain. revert h allTasks.
  induction Hplain as [|filename rest Hload _ IH]; intros h allTasks Hl; cbn.
  - by rewrite list_insert_id.
  - unfold bind at 1. unfold addTask at 1. unfold bind, getProp, gets. cbn.
    rewrite (object_at_lookup _ _ _ Hl). fold (task_of filename).
    destruct (truthy (prop allTasks (task_of filename))) eqn:Hknown; cbn;
      [by apply IH|].
    rewrite Hload. destruct (modules filename) as [module|e|]; cbn.
    + rewrite (object_at_lookup _ _ _ Hl).
      destruct (prop allTasks (task_of filename)) as [known|member]; [|done].
      rewrite (IH _ (<[task_of filename := js_or (description module) (VStr "")]> allTasks)).
      * by rewrite list_insert_insert_eq.
      * apply list_lookup_insert_eq. by eapply lookup_lt_Some.
    + by rewrite list_insert_id.
    + by rewrite list_insert_id.
Qed.

Lemma discover_app (modules : string → outcome (taskModule W))
    (first rest : list string) (allTasks : obj) :
  discover modules (first ++ rest) allTasks
  = match discover modules first allTasks with
    | (Ok _, allTasks') => discover modules rest allTasks'
    | (Throw e, allTasks') => (Throw e, allTasks')
    | (Unmodelled, allTasks') => (Unmodelled, allTasks')
    end.
Proof.
  revert allTasks. induction first as [|filename first IH]; intros allTasks; cbn.
  - done.
  - destruct (truthy (prop allTasks (task_of filename))); cbn; [by apply IH|].
    destruct (modules filename); [by apply IH|done..].
Qed.

Lemma forEach_directories (modules : string → outcome (taskModule W)) (l : loc)
    (directories : list string) (h : store) (w : W) (allTasks : obj) :
  plain_modules w modules (discovered w directories) →
  h !! l = Some (CObj allTasks) →
  forEach directories (λ dir,
    let! tasks := gets (λ s, glob_sync (world s) (dir +:+ "/*/index.js")) in
    forEach tasks (addTask (VRef l))) (State h w)
  = (fst (discover modules (discovered w directories) allTasks),
     State (<[l := CObj (snd (discover modules (discovered w directories) allTasks))]> h)
       w).
Proof.
  revert h allTasks.
  induction directories as [|dir rest IH]; intros h allTasks Hplain Hl; cbn.
  - by rewrite list_insert_id.
  - cbn in Hplain. apply plain_modules_app in Hplain as [Hdir Hrest].
    unfold bind at 1. unfold bind at 1. unfold gets at 1. cbn.
    rewrite (forEach_addTask _ _ _ _ _ _ Hdir Hl), discover_app.
    destruct (discover modules (glob_sync w (dir +:+ "/*/index.js")) allTasks)
      as [[[]|e|] allTasks1]; cbn; [|done..].
    rewrite (IH _ allTasks1 Hrest).
    + by rewrite list_insert_insert_eq.
    + apply list_lookup_insert_eq. by eapply lookup_lt_Some.
Qed.

Lemma getAllTasks_unfold (modules : string → outcome (taskModule W))
    (directories : list string) (options l : loc) (allTasks : obj) (s : state W) :
  plain_modules (world s) modules (discovered (world s) directories) →
  aliases_of (heap s) options = VRef l →
  (heap s ++ [CObj ∅]) !! l = Some (CObj allTasks) →
  getAllTasks directories options s
  = (match fst (discover modules (discovered (world s) directories) allTasks) with
     | Ok _ => Ok (Got (VRef l))
     | Throw e => Throw e
     | Unmodelled => Unmodelled
     end,
     State (<[l := CObj (snd (discover modules (discovered (world s) directories)
                                allTasks))]> (heap s ++ [CObj ∅]))
       (world s)).
Proof.
  intros Hplain Haliases Hl. unfold getAllTasks, getAllAliases.
  unfold bind at 1. unfold bind at 1. unfold alloc. unfold gets at 1. cbn [heap world].
  rewrite object_at_alloc. fold (aliases_of (heap s) options). rewrite Haliases.
  unfold bind at 1. rewrite (forEach_directories _ _ _ _ _ _ Hplain Hl).
  by destruct (fst _).
Qed.

(** The loop over entry modules of tasks that [allTasks] knows: no module
    is loaded and nothing is written. *)
Lemma forEach_addTask_known (l : loc) (filenames : list string) (s : state W)
    (allTasks : obj) :
  heap s !! l = Some (CObj allTasks) →
  Forall (λ filename, truthy (prop allTasks (task_of filename)) = true) filenames →
  forEach filenames (addTask (VRef l)) s = (Ok tt, s).
Proof.
  intros Hl. induction 1 as [|filename rest Hknown _ IH]; cbn; [done|].
  unfold bind at 1. unfold addTask at 1. unfold bind, getProp, gets. cbn.
  rewrite (object_at_lookup _ _ _ Hl). fold (task_of filename).
  rewrite Hknown. cbn. exact IH.
Qed.

Lemma forEach_directories_known (l : loc) (directories : list string) (s : state W)
    (allTasks : obj) :
  heap s !! l = Some (CObj allTasks) →
  Forall (λ filename, truthy (prop allTasks (task_of filename)) = true)
    (discovered (world s) directories) →
  forEach directories (λ dir,
    let! tasks := gets (λ s, glob_sync (world s) (dir +:+ "/*/index.js")) in
    forEach tasks (addTask (VRef l))) s
  = (Ok tt, s).
Proof.
  intros Hl. induction directories as [|dir rest IH]; cbn; [done|].
  intros [Hdir Hrest]%Forall_app.
  unfold bind at 1. unfold bind at 1. unfold gets at 1. cbv beta iota.
  rewrite (forEach_addTask_known _ _ _ _ Hl Hdir). by apply IH.
Qed.

Lemma discover_ok (modules : string → outcome (taskModule W))
    (filenames : list string) (allTasks : obj) :
  Forall (loads modules) filenames → fst (discover modules filenames allTasks) = Ok tt.
Proof.
  intros Hloads. revert allTasks.
  induction Hloads as [|filename rest [module Hload] _ IH]; intros allTasks; cbn.
  - done.
  - rewrite Hload. by destruct (truthy (prop allTasks (task_of filename))); cbn.
Qed.








End discovery_facts.

Lemma demo_plain_modules tasks configs (w : Demo.world) (filenames : list string) :
  plain_modules (H := Demo.host tasks configs) w tasks filenames.
Proof. apply Forall_forall. by intros filename _ h. Qed.



(** C8 fails on [getAllTasks]: with the options
    [{aliases: {setup: ['a', 'b']}}] and the tasks [a] and [b] under
    [/tasks], [getAllTasks] returns the alias mapping of the options itself,
    having written the two tasks into it.  The same options then no longer
    run the task [a]: [run('a')] finds the description of [a] where it looks
    for an alias, takes it for one, and throws a [TypeError]. *)
Theorem getAllTasks_writes_into_the_aliases_of_options :
  object_at Demo.alias_store 1 = {[ "setup" := VArr ["a"; "b"] ]}
  ∧ getAllTasks (H := Demo.with_tasks) ["/tasks"] 0
      (State Demo.alias_store Demo.tasks_world)
    = (Ok (VRef 1), State Demo.scanned_store Demo.tasks_world)
  ∧ object_at Demo.scanned_store 1
    = {[ "setup" := VArr ["a"; "b"]; "a" := VStr "First"; "b" := VStr "" ]}
  ∧ object_at Demo.scanned_store 1 ≠ object_at Demo.alias_store 1
  ∧ fst (run (H := Demo.with_tasks) (One "a") ["/tasks"] 0 (VRef 2)
           (State Demo.alias_store Demo.tasks_world)) = Ok tt
  ∧ fst (run (H := Demo.with_tasks) (One "a") ["/tasks"] 0 (VRef 2)
           (State Demo.scanned_store Demo.tasks_world)) = Throw TypeError.
Proof.
  split; [reflexivity|]. split; [reflexivity|]. split; [reflexivity|].
  split; [|split; reflexivity].
  intros Heq. apply (f_equal (λ o : obj, o !! "a")) in Heq.
  vm_compute in Heq. discriminate Heq.
Qed.

(** * Further properties of [index.js] *)

(** ** [firstResult], [tryFile] and [tryResolve] *)

(** X1: [firstResult] returns [r] exactly when the list splits at an item
    that is truthy and whose result [r] is truthy, every item before it
    being falsy or having a falsy result; and it returns [undefined]
    exactly when every item is falsy or has a falsy result. *)
Theorem firstResult_first_truthy_result {A B} `{!Truthy A, !Truthy B}
    (items : list A) (fn : A → option B) :
  (∀ r, firstResult items fn = Some r
        ↔ ∃ before item after,
            items = before ++ item :: after
            ∧ Forall (λ x, truthy x = false ∨ truthy (fn x) = false) before
            ∧ truthy item = true ∧ fn item = Some r ∧ truthy r = true)
  ∧ (firstResult items fn = None
     ↔ Forall (λ x, truthy x = false ∨ truthy (fn x) = false) items).
Proof.
  induction items as [|item rest [IHsome IHnone]]; cbn.
  { split.
    - intros r. split; [done|]. intros (before & x & after & Heq & _).
      by destruct before.
    - split; [constructor|done]. }
  destruct (truthy item) eqn:Hitem; cbn.
  - destruct (fn item) as [b|] eqn:Hfn; cbn.
    + destruct (truthy b) eqn:Hb.
      * split.
        -- intros r. split.
           ++ intros [= <-]. exists [], item, rest. repeat split; auto.
           ++ intros ([|x before] & y & after & Heq & Hbefore & Hy & Hfy & Hr).
              ** injection Heq as <- _. congruence.
              ** injection Heq as <- _. apply Forall_cons_1 in Hbefore as [[?|Hx] _].
                 --- congruence.
                 --- rewrite Hfn in Hx. cbn in Hx. congruence.
        -- split; [done|]. intros [[?|Hx] _]%Forall_cons_1; [congruence|].
           rewrite Hfn in Hx. cbn in Hx. congruence.
      * split.
        -- intros r. rewrite IHsome. split.
           ++ intros (before & y & after & -> & Hbefore & Hrest).
              exists (item :: before), y, after. split; [done|]. split; [|done].
              constructor; [|done]. right. rewrite Hfn. by cbn.
           ++ intros ([|x before] & y & after & Heq & Hbefore & Hy & Hfy & Hr).
              ** injection Heq as <- _. rewrite Hfn in Hfy. congruence.
              ** injection Heq as <- ->. apply Forall_cons_1 in Hbefore as [_ Hbefore].
                 exists before, y, after. auto.
        -- rewrite IHnone. split.
           ++ intros Hrest. constructor; [|done]. right. rewrite Hfn. by cbn.
           ++ by intros [_ ?]%Forall_cons_1.
    + split.
      * intros r. rewrite IHsome. split.
        -- intros (before & y & after & -> & Hbefore & Hrest).
           exists (item :: before), y, after. split; [done|]. split; [|done].
           constructor; [|done]. right. by rewrite Hfn.
        -- intros ([|x before] & y & after & Heq & Hbefore & Hy & Hfy & Hr).
           ++ injection Heq as <- _. congruence.
           ++ injection Heq as <- ->. apply Forall_cons_1 in Hbefore as [_ Hbefore].
              exists before, y, after. auto.
      * rewrite IHnone. split.
        -- intros Hrest. constructor; [|done]. right. by rewrite Hfn.
        -- by intros [_ ?]%Forall_cons_1.
  - split.
    + intros r. rewrite IHsome. split.
      * intros (before & y & after & -> & Hbefore & Hrest).
        exists (item :: before), y, after. split; [done|]. split; [|done].
        constructor; auto.
      * intros ([|x before] & y & after & Heq & Hbefore & Hy & Hfy & Hr).
        -- injection Heq as <- _. congruence.
        -- injection Heq as <- ->. apply Forall_cons_1 in Hbefore as [_ Hbefore].
           exists before, y, after. auto.
    + rewrite IHnone. split.
      * intros Hrest. constructor; auto.
      * by intros [_ ?]%Forall_cons_1.
Qed.

Lemma firstResult_app {A B} `{!Truthy A, !Truthy B}
    (first rest : list A) (fn : A → option B) :
  firstResult (first ++ rest) fn
  = match firstResult first fn with
    | Some r => Some r
    | None => firstResult rest fn
    end.
Proof.
  induction first as [|item first IH]; cbn; [done|].
  destruct (truthy item); cbn; [|done].
  destruct (fn item) as [b|]; cbn; [|done].
  by destruct (truthy b).
Qed.

Section resolver_facts.
Context {W : Type} {H : Host W}.

(** X2: the directories are tried in list order and the earlier ones shadow
    the later ones: over a list in two parts, [tryFile] answers with what it
    finds in the first part, and turns to the second part only when it
    finds nothing in the first. *)
Theorem tryFile_earlier_directories_shadow (w : W) (first rest : list string)
    (filename : string) :
  tryFile w (first ++ rest) filename
  = match tryFile w first filename with
    | Some p => Some p
    | None => tryFile w rest filename
    end.
Proof. unfold tryFile. apply firstResult_app. Qed.

(** X3: what [tryFile] returns is never made up: it is a path that exists,
    built by [path.resolve] from a directory of the list that is not the
    empty string, and it is not the empty string itself. *)
Theorem tryFile_returns_existing_path (w : W) (directories : list string)
    (filename p : string) :
  tryFile w directories filename = Some p →
  ∃ dir, dir ∈ directories ∧ dir ≠ ""
         ∧ p = path_resolve dir filename
         ∧ fs_existsSync w p = true
         ∧ p ≠ "".
Proof.
  unfold tryFile. induction directories as [|dir rest IH]; cbn; [done|].
  destruct (truthy dir) eqn:Hdir; cbn.
  - destruct (fs_existsSync w (path_resolve dir filename)) eqn:Hexists; cbn.
    + destruct (truthy (path_resolve dir filename)) eqn:Hp.
      * intros [= <-]. exists dir. repeat split; auto.
        -- apply list_elem_of_here.
        -- by apply truthy_string.
        -- by apply truthy_string.
      * intros (d & Hin & ?)%IH. exists d. split; [by apply list_elem_of_further|done].
    + intros (d & Hin & ?)%IH. exists d. split; [by apply list_elem_of_further|done].
  - intros (d & Hin & ?)%IH. exists d. split; [by apply list_elem_of_further|done].
Qed.

(** X4: with a host that resolves no empty name and to no empty path,
    [tryResolve] returns what the first resolvable name of the list
    resolves to, and [undefined] when no name resolves; an [undefined] among
    the names is passed over. *)
Theorem tryResolve_first_resolvable (w : W) (names : list (option string)) :
  resolver_sane w →
  tryResolve w names = head (omap (resolved w) names).
Proof.
  intros Hsane. unfold tryResolve, resolved.
  induction names as [|name rest IH]; cbn; [done|].
  destruct name as [n|]; cbn.
  - destruct (requireg_resolve w n) as [p|] eqn:Hres; cbn.
    + destruct (Hsane _ _ Hres) as [Hn Hp]. apply truthy_string in Hn, Hp.
      change (truthy (Some n)) with (truthy n). by rewrite Hn, Hp.
    + change (truthy (Some n)) with (truthy n). by destruct (truthy n).
  - done.
Qed.

(** X5: configuration files of several directories are not merged: over a
    list of directories in two parts, [getConfigFromFile] gives what it
    gives over the first part when the file is found there, whatever the
    second part holds, and what it gives over the second part otherwise. *)
Theorem getConfigFromFile_first_file_wins (w : W) (first rest : list string)
    (filename : string) :
  getConfigFromFile w (first ++ rest) filename
  = match tryFile w first filename with
    | Some _ => getConfigFromFile w first filename
    | None => getConfigFromFile w rest filename
    end.
Proof.
  unfold getConfigFromFile, tryFile. rewrite firstResult_app.
  by destruct (firstResult first _).
Qed.

End resolver_facts.

(** ** The configuration, from the command line to the defaults of a task *)

Lemma prop_insert_ne (o : obj) (key k : string) (v : value) :
  key ≠ k → prop (<[key := v]> o) k = prop o k.
Proof. intros Hne. unfold prop. by rewrite lookup_insert_ne. Qed.



Section configuration_facts.
Context {W : Type} {H : Host W}.

Lemma defaults_run (s : state W) (config options defaultOptions : loc)
    (current given : obj) :
  heap s !! config = Some (CEnv options) →
  heap s !! options = Some (CObj current) →
  heap s !! defaultOptions = Some (CObj given) →
  defaults config defaultOptions s
  = (Ok config,
     State (<[config := CEnv (length (heap s))]> (heap s ++ [CObj (current ∪ given)]))
       (world s)).
Proof.
  intros Hconfig Hoptions Hgiven.
  unfold defaults, read_options, bind, gets, alloc, modify_heap, ret. cbn.
  rewrite Hconfig. cbn.
  rewrite (object_at_lookup _ _ _ Hoptions), (object_at_lookup _ _ _ Hgiven).
  by rewrite (right_id_L ∅ (∪)).
Qed.

(** The store once [defaults] has run. *)
Lemma defaults_store (h : store) (config options : loc) (merged : obj) :
  h !! config = Some (CEnv options) →
  let h' := <[config := CEnv (length h)]> (h ++ [CObj merged]) in
  h' !! config = Some (CEnv (length h))
  ∧ h' !! length h = Some (CObj merged)
  ∧ length h' = S (length h)
  ∧ ∀ l, l ≠ config → l < length h → h' !! l = h !! l.
Proof.
  intros Hconfig h'. unfold h'.
  assert (Hlt : config < length h) by (by eapply lookup_lt_Some).
  split; [|split; [|split]].
  - apply list_lookup_insert_eq. rewrite length_app. cbn. lia.
  - rewrite list_lookup_insert_ne by lia. by rewrite list_lookup_middle.
  - rewrite length_insert, length_app. cbn. lia.
  - intros l Hl Hlen. rewrite list_lookup_insert_ne by done. by rewrite lookup_app_l.
Qed.

(** X7: the precedence of the three sources of a setting.  When the options
    of a run are what [getConfig] returned for an [argv] that is not
    array-like, and a task sets its defaults on a getter over them, the
    mapping of the getter holds, under every key but [__proto__], the value
    of the command line ([config:key]) when there is one, else the value of
    the configuration file when there is one, else the default. *)
Theorem settings_precedence (w : W) (directories : list string) (filename : string)
    (argv fromFile cfg given : obj) (s : state W)
    (config options defaultOptions : loc) :
  getConfigFromFile w directories filename = Ok fromFile →
  isArrayLike argv = false →
  getConfig w directories filename argv = Ok cfg →
  heap s !! options = Some (CObj cfg) →
  heap s !! config = Some (CEnv options) →
  heap s !! defaultOptions = Some (CObj given) →
  ∃ s' target merged,
    defaults config defaultOptions s = (Ok config, s')
    ∧ heap s' !! config = Some (CEnv target)
    ∧ heap s' !! target = Some (CObj merged)
    ∧ ∀ k, k ≠ "__proto__" →
           merged !! k =
           match argv !! ("config:" +:+ k) with
           | Some v => Some v
           | None =>
               match fromFile !! k with
               | Some v => Some v
               | None => given !! k
               end
           end.
Proof.
  intros Hfile Hplain Hcfg Hoptions Hconfig Hgiven.
  rewrite (getConfig_run _ _ _ _ _ Hfile) in Hcfg.
  rewrite (getConfigFromCommandLine_plain _ Hplain) in Hcfg.
  injection Hcfg as <-.
  destruct (defaults_store (heap s) config options
              ((map_fold addOption ∅ argv ∪ fromFile) ∪ given) Hconfig)
    as (Hc & Ht & _ & _).
  eexists _, (length (heap s)), _.
  split; [exact (defaults_run _ _ _ _ _ _ Hconfig Hoptions Hgiven)|].
  cbn. split; [exact Hc|]. split; [exact Ht|].
  intros k Hk. rewrite !lookup_union, addOption_lookup.
  destruct (String.eqb_spec k "__proto__"); [done|].
  by destruct (argv !! ("config:" +:+ k)), (fromFile !! k), (given !! k).
Qed.

End configuration_facts.

(** ** The getter, call after call *)

Section getter_composition.
Context {W : Type} {H : Host W}.





End getter_composition.

(** ** The runner, beyond one alias *)

Section runner_composition.
Context {W : Type} {H : Host W}.

Lemma forEach_app {A} (first rest : list A) (fn : A → M W unit) (s : state W) :
  forEach (first ++ rest) fn s = (forEach first fn ;;; forEach rest fn) s.
Proof.
  revert s. induction first as [|item first IH]; intros s; cbn; [done|].
  unfold bind. destruct (fn item s) as [[u|e|] s1]; [|done..].
  rewrite IH. done.
Qed.

(** X11: [run] with a list of names runs the names in list order, each as
    [run] with the one name, starting in the state the name before left;
    the first name that throws ends the run with what it threw, and the
    names after it are not run.  Running a list in two parts is running the
    first part and then, if it did not throw, the second. *)
Theorem run_names_in_list_order (directories : list string) (options : loc)
    (argv : value) :
  (∀ names s r,
     run (Many names) directories options argv s = r
     ↔ in_order (λ name, run (One name) directories options argv) names s r)
  ∧ (∀ first rest s,
       run (Many (first ++ rest)) directories options argv s
       = (run (Many first) directories options argv ;;;
          run (Many rest) directories options argv) s).
Proof.
  split.
  - intros names s r. apply forEach_in_order.
  - intros first rest s. apply forEach_app.
Qed.

Lemma runAlias_tasks_cons (aliasName member : string) (rest : list string)
    (directories : list string) (options : loc) (argv : value) (s : state W) :
  runAlias_tasks aliasName (VArr (member :: rest)) directories options argv s
  = match runTask member directories options argv
            (State (heap s)
               (console_log (chalk_yellow ("Running alias " +:+ aliasName +:+ "..."))
                  (world s))) with
    | (Ok _, s') => forEach rest (λ name, runTask name directories options argv) s'
    | (Throw e, s') => (Throw e, s')
    | (Unmodelled, s') => (Unmodelled, s')
    end.
Proof. reflexivity. Qed.

(** X12: the members of an alias are run as tasks, never as aliases:
    [runAlias] hands each member to [runTask] without a look at the alias
    mapping.  So when no candidate of the first member resolves, the alias
    fails with [MrmUnknownTask] for that member, its line logged, whatever
    the alias mapping holds under the member's name. *)
Theorem alias_members_run_as_tasks (aliasName member : string) (rest : list string)
    (directories : list string) (options l : loc) (aliases : obj) (argv : value)
    (s : state W) :
  alias_mapping (heap s) options l aliases →
  aliases !! aliasName = Some (VArr (member :: rest)) →
  Forall (λ c, resolved
                 (console_log (chalk_yellow ("Running alias " +:+ aliasName +:+ "..."))
                    (world s)) c = None)
    (candidates
       (console_log (chalk_yellow ("Running alias " +:+ aliasName +:+ "...")) (world s))
       directories member) →
  runAlias aliasName directories options argv s
  = (Throw (MrmUnknownTask ("Task “" +:+ member +:+ "” not found.") member),
     State (heap s ++ [CObj ∅])
       (console_log (chalk_yellow ("Running alias " +:+ aliasName +:+ "..."))
          (world s))).
Proof.
  intros (_ & _ & Hentry)%alias_mapping_read Hmember Hnone.
  rewrite runAlias_unfold, Hentry, (prop_own _ _ _ Hmember).
  change (truthy (Got (VArr (member :: rest)))) with true. cbv iota.
  rewrite runAlias_tasks_cons, runTask_unfold. cbn [heap world].
  by rewrite (tryResolve_none _ _ Hnone).
Qed.

(** X13: an alias entry that is truthy and no array, a single name given as
    a string for one, is not run: [runAlias] logs the line of the alias
    and throws a [TypeError], and so does [run] with that name. *)
Theorem alias_entry_that_is_no_list (aliasName : string) (entry : value)
    (directories : list string) (options l : loc) (aliases : obj) (argv : value)
    (s : state W) :
  alias_mapping (heap s) options l aliases →
  aliases !! aliasName = Some entry →
  truthy entry = true →
  (∀ tasks, entry ≠ VArr tasks) →
  runAlias aliasName directories options argv s
  = (Throw TypeError,
     State (heap s ++ [CObj ∅])
       (console_log (chalk_yellow ("Running alias " +:+ aliasName +:+ "..."))
          (world s)))
  ∧ run (One aliasName) directories options argv s
    = (Throw TypeError,
       State ((heap s ++ [CObj ∅]) ++ [CObj ∅])
         (console_log (chalk_yellow ("Running alias " +:+ aliasName +:+ "..."))
            (world s))).
Proof.
  intros (_ & _ & Hentry)%alias_mapping_read Hlookup Htruthy Hnolist.
  pose proof (prop_own _ _ _ Hlookup) as Hprop.
  assert (Htruthy' : truthy (Got entry) = true) by exact Htruthy.
  assert (Hbody : ∀ s0, runAlias_tasks aliasName entry directories options argv s0
                        = (Throw TypeError,
                           State (heap s0)
                             (console_log
                                (chalk_yellow ("Running alias " +:+ aliasName +:+ "..."))
                                (world s0)))).
  { intros s0. unfold runAlias_tasks, bind, modify_world. cbn.
    destruct entry; try done. by destruct (Hnolist items). }
  split.
  - by rewrite runAlias_unfold, Hentry, Hprop, Htruthy', Hbody.
  - unfold run, run1. rewrite bind_alias_entry, Hentry, Hprop, Htruthy'.
    rewrite runAlias_unfold. cbn [heap world].
    by rewrite alias_entry_alloc, Hentry, Hprop, Htruthy', Hbody.
Qed.

End runner_composition.

(** ** Discovery, cell by cell *)

Section discovery_details.
Context {W : Type} {H : Host W}.

(** X14: when loading a module does nothing but give the module or throw,
    [getAllTasks] writes, of the cells that are in the store when it is
    called, to one at most, the alias mapping of the options, and that
    object is what it returns when it returns, as it does when every module
    loads; for options that hold no aliases it writes to none of them, its
    result being a new object.  It leaves the world as it is. *)
Theorem getAllTasks_writes_to_the_alias_mapping_only (directories : list string)
    (options l : loc) (aliases : obj) (modules : string → outcome (taskModule W))
    (s : state W) :
  alias_mapping (heap s) options l aliases →
  plain_modules (world s) modules (discovered (world s) directories) →
  (∀ v, fst (getAllTasks directories options s) = Ok v → v = VRef l)
  ∧ (Forall (loads modules) (discovered (world s) directories) →
     fst (getAllTasks directories options s) = Ok (VRef l))
  ∧ world (snd (getAllTasks directories options s)) = world s
  ∧ (∀ l', l' < length (heap s) → l' ≠ l →
       heap (snd (getAllTasks directories options s)) !! l' = heap s !! l')
  ∧ (prop (object_at (heap s) options) "aliases" = VUndef →
     l = length (heap s)
     ∧ ∀ l', l' < length (heap s) →
         heap (snd (getAllTasks directories options s)) !! l' = heap s !! l').
Proof.
  intros Hmapping Hplain.
  destruct (alias_mapping_read _ _ _ _ Hmapping) as (Haliases & Hl & _).
  rewrite (getAllTasks_unfold _ _ _ _ _ _ Hplain Haliases Hl). cbn [fst snd heap world].
  assert (Hframe : ∀ l', l' < length (heap s) → l' ≠ l →
            <[l := CObj (snd (discover modules (discovered (world s) directories)
                                aliases))]> (heap s ++ [CObj ∅]) !! l'
            = heap s !! l').
  { intros l' Hlt Hne. rewrite list_lookup_insert_ne by done. by rewrite lookup_app_l. }
  split; [|split; [|split; [done|split; [exact Hframe|]]]].
  - intros v. destruct (fst _); [|done..]. by intros [= <-].
  - intros Hloads. by rewrite (discover_ok _ _ _ Hloads).
  - intros Hnone.
    assert (Hnew : l = length (heap s)).
    { destruct Hmapping as [opts l0 aliases0 Hopts Hgiven _|opts Hopts _]; [|done].
      rewrite (object_at_lookup _ _ _ Hopts), (prop_own _ _ _ Hgiven) in Hnone.
      done. }
    split; [exact Hnew|]. intros l' Hlt. apply Hframe; [done|lia].
Qed.

(** X15: [getAllTasks] does not load the module of a task whose name it
    already holds with a truthy entry.  When every entry module that the
    scan finds belongs to such a name, and so when the scan finds nothing or
    there is no directory to scan, it returns the alias mapping as it was,
    whatever loading any of the modules would do. *)
Theorem getAllTasks_loads_no_known_task (directories : list string)
    (options l : loc) (aliases : obj) (s : state W) :
  alias_mapping (heap s) options l aliases →
  Forall (λ filename, truthy (prop aliases (task_of filename)) = true)
    (discovered (world s) directories) →
  getAllTasks directories options s
  = (Ok (VRef l), State (heap s ++ [CObj ∅]) (world s))
  ∧ (heap s ++ [CObj ∅]) !! l = Some (CObj aliases).
Proof.
  intros (Haliases & Hl & _)%alias_mapping_read Hknown.
  split; [|exact Hl].
  unfold getAllTasks, getAllAliases.
  unfold bind at 1. unfold bind at 1. unfold alloc. unfold gets at 1. cbn [heap world].
  rewrite object_at_alloc. fold (aliases_of (heap s) options). rewrite Haliases.
  unfold bind at 1.
  by rewrite (forEach_directories_known l directories
                (State (heap s ++ [CObj ∅]) (world s)) aliases Hl Hknown).
Qed.

Lemma descriptions_of_cons (modules : string → outcome (taskModule W))
    (filename : string) (rest : list string) (taskName : string) :
  descriptions_of modules (filename :: rest) taskName
  = if String.eqb (task_of filename) taskName
    then listed_description modules filename :: descriptions_of modules rest taskName
    else descriptions_of modules rest taskName.
Proof.
  unfold descriptions_of. cbn.
  by destruct (String.eqb (task_of filename) taskName).
Qed.

Lemma js_or_falsy (d : value) :
  truthy (js_or d (VStr "")) = false → js_or d (VStr "") = VStr "".
Proof. unfold js_or. destruct (truthy d) eqn:Hd; [congruence|done]. Qed.

Lemma discover_key (modules : string → outcome (taskModule W))
    (filenames : list string) (allTasks : obj) (taskName : string) :
  Forall (loads modules) filenames →
  snd (discover modules filenames allTasks) !! taskName
  = if truthy (prop allTasks taskName) then allTasks !! taskName
    else match descriptions_of modules filenames taskName with
         | [] => allTasks !! taskName
         | listed => Some (default (VStr "") (List.find (λ d, truthy d) listed))
         end.
Proof.
  intros Hloads. revert allTasks.
  induction Hloads as [|filename rest [module Hload] _ IH]; intros allTasks.
  { cbn. by destruct (truthy (prop allTasks taskName)). }
  rewrite descriptions_of_cons. cbn [discover].
  destruct (String.eqb_spec (task_of filename) taskName) as [Heq|Hne].
  - rewrite Heq.
    destruct (truthy (prop allTasks taskName)) eqn:Hknown; cbn [negb].
    + by rewrite IH, Hknown.
    + rewrite Hload, IH. unfold listed_description. rewrite Hload.
      set (d := js_or (description module) (VStr "")).
      rewrite (prop_own (<[taskName := d]> allTasks) taskName d)
        by apply lookup_insert_eq.
      rewrite lookup_insert_eq. cbn [List.find].
      change (truthy (Got d)) with (truthy d).
      destruct (truthy d) eqn:Hd; [done|].
      rewrite (js_or_falsy _ Hd : d = VStr "").
      by destruct (descriptions_of modules rest taskName).
  - destruct (truthy (prop allTasks (task_of filename))); cbn [negb].
    + apply IH.
    + rewrite Hload, IH, prop_insert_ne by done. by rewrite lookup_insert_ne.
Qed.

(** X16: which description [getAllTasks] lists for a task that is found in
    several directories, when the modules load.  For a name under which the
    read of the alias mapping is falsy (no truthy entry, and not a name
    that [Object.prototype] defines), the entry of the result is the first
    description that is not empty among the entry modules of that name, in
    the order of the scan, the directories in list order; and the empty
    string when none of them declares one. *)
Theorem getAllTasks_lists_first_description (directories : list string)
    (options l : loc) (aliases : obj) (modules : string → outcome (taskModule W))
    (s : state W) :
  alias_mapping (heap s) options l aliases →
  plain_modules (world s) modules (discovered (world s) directories) →
  Forall (loads modules) (discovered (world s) directories) →
  ∃ allTasks : obj,
    getAllTasks directories options s
    = (Ok (VRef l), State (<[l := CObj allTasks]> (heap s ++ [CObj ∅])) (world s))
    ∧ ∀ taskName,
        truthy (prop aliases taskName) = false →
        descriptions_of modules (discovered (world s) directories) taskName ≠ [] →
        allTasks !! taskName
        = Some (default (VStr "")
                  (List.find (λ d, truthy d)
                     (descriptions_of modules (discovered (world s) directories)
                        taskName))).
Proof.
  intros (Haliases & Hl & _)%alias_mapping_read Hplain Hloads.
  exists (snd (discover modules (discovered (world s) directories) aliases)).
  split.
  - by rewrite (getAllTasks_unfold _ _ _ _ _ _ Hplain Haliases Hl),
         (discover_ok _ _ _ Hloads).
  - intros taskName Hunknown Hsome.
    rewrite (discover_key _ _ _ _ Hloads), Hunknown.
    by destruct (descriptions_of _ _ taskName).
Qed.

End discovery_details.

(** ** The further properties at work *)

Lemma tryFile_returns_existing_path_witness :
  tryFile (H := Demo.plain) Demo.config_world [""; "/b"] "config.json"
    = Some "/b/config.json"
  ∧ ∃ dir, dir ∈ [""; "/b"] ∧ dir ≠ ""
           ∧ "/b/config.json" = path_resolve (Host := Demo.plain) dir "config.json"
           ∧ fs_existsSync (Host := Demo.plain) Demo.config_world "/b/config.json" = true
           ∧ "/b/config.json" ≠ "".
Proof.
  split; [reflexivity|].
  exact (tryFile_returns_existing_path (H := Demo.plain) Demo.config_world
           [""; "/b"] "config.json" "/b/config.json" eq_refl).
Defined.

Lemma tryResolve_first_resolvable_witness :
  resolver_sane (H := Demo.with_tasks) Demo.tasks_world
  ∧ tryResolve (H := Demo.with_tasks) Demo.tasks_world
      [None; Some "mrm-task-pkg"; Some "/tasks/a/index.js"]
    = Some "/node_modules/mrm-task-pkg/index.js".
Proof.
  assert (Hsane : resolver_sane (H := Demo.with_tasks) Demo.tasks_world)
    by apply demo_resolver_sane.
  split; [exact Hsane|].
  exact (eq_trans
           (tryResolve_first_resolvable (H := Demo.with_tasks) Demo.tasks_world
              [None; Some "mrm-task-pkg"; Some "/tasks/a/index.js"] Hsane)
           eq_refl).
Defined.

Lemma settings_precedence_witness :
  getConfigFromFile (H := Demo.with_config) Demo.config_world ["/a"; "/b"] "config.json"
    = Ok {[ "a" := VNum 1; "b" := VNum 1 ]}
  ∧ isArrayLike {[ "config:b" := VNum 2; "verbose" := VBool true ]} = false
  ∧ getConfig (H := Demo.with_config) Demo.config_world ["/a"; "/b"] "config.json"
      {[ "config:b" := VNum 2; "verbose" := VBool true ]}
    = Ok {[ "a" := VNum 1; "b" := VNum 2 ]}
  ∧ ∃ s' target merged,
      defaults 1 2 (State Demo.configured_store Demo.quiet) = (Ok 1, s')
      ∧ heap s' !! 1 = Some (CEnv target)
      ∧ heap s' !! target = Some (CObj merged)
      ∧ merged !! "a" = Some (VNum 1)
      ∧ merged !! "b" = Some (VNum 2)
      ∧ merged !! "c" = Some (VNum 3).
Proof.
  assert (Hplain : isArrayLike {[ "config:b" := VNum 2; "verbose" := VBool true ]}
                   = false) by reflexivity.
  split; [reflexivity|]. split; [exact Hplain|]. split; [reflexivity|].
  destruct (settings_precedence (H := Demo.with_config) Demo.config_world
              ["/a"; "/b"] "config.json"
              {[ "config:b" := VNum 2; "verbose" := VBool true ]}
              {[ "a" := VNum 1; "b" := VNum 1 ]}
              {[ "a" := VNum 1; "b" := VNum 2 ]}
              {[ "a" := VNum 9; "c" := VNum 3 ]}
              (State Demo.configured_store Demo.quiet) 1 0 2
              eq_refl Hplain eq_refl eq_refl eq_refl eq_refl)
    as (s' & target & merged & Hrun & Hconfig & Htarget & Hkeys).
  exists s', target, merged.
  split; [exact Hrun|]. split; [exact Hconfig|]. split; [exact Htarget|].
  split; [apply (Hkeys "a"); discriminate|].
  split; [apply (Hkeys "b"); discriminate|apply (Hkeys "c"); discriminate].
Defined.




Lemma demo_nested_alias_mapping :
  alias_mapping Demo.nested_store 0 1
    {[ "all" := VArr ["setup"; "a"]; "setup" := VArr ["a"] ]}.
Proof. by eapply aliases_given. Qed.

Lemma alias_members_run_as_tasks_witness :
  alias_mapping Demo.nested_store 0 1
    {[ "all" := VArr ["setup"; "a"]; "setup" := VArr ["a"] ]}
  ∧ ({[ "all" := VArr ["setup"; "a"]; "setup" := VArr ["a"] ]} : obj) !! "all"
    = Some (VArr ["setup"; "a"])
  ∧ Forall (λ c, resolved (H := Demo.with_tasks)
                   (Demo.log "Running alias all..." Demo.tasks_world) c = None)
      (candidates (H := Demo.with_tasks)
         (Demo.log "Running alias all..." Demo.tasks_world) ["/tasks"] "setup")
  ∧ runAlias (H := Demo.with_tasks) "all" ["/tasks"] 0 (VRef 2)
      (State Demo.nested_store Demo.tasks_world)
    = (Throw (MrmUnknownTask "Task “setup” not found." "setup"),
       State (Demo.nested_store ++ [CObj ∅])
         (Demo.log "Running alias all..." Demo.tasks_world)).
Proof.
  assert (Hnone : Forall (λ c, resolved (H := Demo.with_tasks)
                                 (Demo.log "Running alias all..." Demo.tasks_world) c
                               = None)
                    (candidates (H := Demo.with_tasks)
                       (Demo.log "Running alias all..." Demo.tasks_world)
                       ["/tasks"] "setup")) by (repeat constructor).
  split; [exact demo_nested_alias_mapping|]. split; [reflexivity|].
  split; [exact Hnone|].
  exact (alias_members_run_as_tasks (H := Demo.with_tasks) "all" "setup" ["a"]
           ["/tasks"] 0 1 _ (VRef 2) (State Demo.nested_store Demo.tasks_world)
           demo_nested_alias_mapping eq_refl Hnone).
Defined.

Lemma demo_scanned_alias_mapping :
  alias_mapping Demo.scanned_store 0 1
    {[ "setup" := VArr ["a"; "b"]; "a" := VStr "First"; "b" := VStr "" ]}.
Proof. by eapply aliases_given. Qed.

Lemma alias_entry_that_is_no_list_witness :
  alias_mapping Demo.scanned_store 0 1
    {[ "setup" := VArr ["a"; "b"]; "a" := VStr "First"; "b" := VStr "" ]}
  ∧ ({[ "setup" := VArr ["a"; "b"]; "a" := VStr "First"; "b" := VStr "" ]} : obj) !! "a"
    = Some (VStr "First")
  ∧ truthy (VStr "First") = true
  ∧ runAlias (H := Demo.with_tasks) "a" ["/tasks"] 0 (VRef 2)
      (State Demo.scanned_store Demo.tasks_world)
    = (Throw TypeError,
       State (Demo.scanned_store ++ [CObj ∅])
         (Demo.log "Running alias a..." Demo.tasks_world)).
Proof.
  split; [exact demo_scanned_alias_mapping|]. split; [reflexivity|].
  split; [reflexivity|].
  exact (proj1 (alias_entry_that_is_no_list (H := Demo.with_tasks) "a" (VStr "First")
                  ["/tasks"] 0 1 _ (VRef 2)
                  (State Demo.scanned_store Demo.tasks_world)
                  demo_scanned_alias_mapping eq_refl eq_refl
                  (λ tasks Heq, eq_ind (VStr "First")
                     (λ v, match v with VStr _ => True | _ => False end) I _ Heq))).
Defined.

Lemma getAllTasks_writes_to_the_alias_mapping_only_witness :
  alias_mapping Demo.alias_store 0 1 {[ "setup" := VArr ["a"; "b"] ]}
  ∧ plain_modules (H := Demo.with_broken_a) Demo.tasks_world Demo.broken_task_files
      (discovered (H := Demo.with_broken_a) Demo.tasks_world ["/tasks"])
  ∧ fst (getAllTasks (H := Demo.with_broken_a) ["/tasks"] 0
           (State Demo.alias_store Demo.tasks_world))
    = Throw (Thrown (VStr "a is broken"))
  ∧ world (snd (getAllTasks (H := Demo.with_broken_a) ["/tasks"] 0
                  (State Demo.alias_store Demo.tasks_world))) = Demo.tasks_world
  ∧ heap (snd (getAllTasks (H := Demo.with_broken_a) ["/tasks"] 0
                 (State Demo.alias_store Demo.tasks_world))) !! 0
    = Some (CObj {[ "aliases" := VRef 1 ]})
  ∧ heap (snd (getAllTasks (H := Demo.with_broken_a) ["/tasks"] 0
                 (State Demo.alias_store Demo.tasks_world))) !! 2
    = Some (CObj ∅).
Proof.
  assert (Hplain : plain_modules (H := Demo.with_broken_a) Demo.tasks_world
                     Demo.broken_task_files
                     (discovered (H := Demo.with_broken_a) Demo.tasks_world ["/tasks"]))
    by apply demo_plain_modules.
  split; [exact demo_alias_mapping|]. split; [exact Hplain|]. split; [reflexivity|].
  destruct (getAllTasks_writes_to_the_alias_mapping_only (H := Demo.with_broken_a)
              ["/tasks"] 0 1 _ Demo.broken_task_files
              (State Demo.alias_store Demo.tasks_world)
              demo_alias_mapping Hplain) as (_ & _ & Hworld & Hframe & _).
  split; [exact Hworld|]. split.
  - exact (Hframe 0 (Nat.lt_0_succ 2) (Nat.neq_0_succ 0)).
  - exact (Hframe 2 (Nat.lt_succ_diag_r 2) (Nat.neq_succ_diag_l 1)).
Defined.

Lemma demo_shadowing_alias_mapping :
  alias_mapping Demo.shadowing_store 0 1 {[ "a" := VArr ["b"]; "b" := VArr [] ]}.
Proof. by eapply aliases_given. Qed.

Lemma getAllTasks_loads_no_known_task_witness :
  alias_mapping Demo.shadowing_store 0 1 {[ "a" := VArr ["b"]; "b" := VArr [] ]}
  ∧ Forall (λ filename,
             truthy (prop {[ "a" := VArr ["b"]; "b" := VArr [] ]}
                       (task_of (H := Demo.plain) filename)) = true)
      (discovered (H := Demo.plain) Demo.tasks_world ["/tasks"])
  ∧ fst (require_task (Host := Demo.plain) "/tasks/a/index.js"
           (State Demo.shadowing_store Demo.tasks_world))
    = Demo.not_found "/tasks/a/index.js"
  ∧ getAllTasks (H := Demo.plain) ["/tasks"] 0
      (State Demo.shadowing_store Demo.tasks_world)
    = (Ok (VRef 1), State (Demo.shadowing_store ++ [CObj ∅]) Demo.tasks_world).
Proof.
  assert (Hknown : Forall (λ filename,
                     truthy (prop {[ "a" := VArr ["b"]; "b" := VArr [] ]}
                               (task_of (H := Demo.plain) filename)) = true)
                     (discovered (H := Demo.plain) Demo.tasks_world ["/tasks"]))
    by (repeat constructor).
  split; [exact demo_shadowing_alias_mapping|]. split; [exact Hknown|].
  split; [reflexivity|].
  exact (proj1 (getAllTasks_loads_no_known_task (H := Demo.plain) ["/tasks"] 0 1 _
                  (State Demo.shadowing_store Demo.tasks_world)
                  demo_shadowing_alias_mapping Hknown)).
Defined.

Lemma demo_bare_alias_mapping : alias_mapping Demo.bare_store 0 1 ∅.
Proof. by eapply (aliases_missing Demo.bare_store 0 ∅). Qed.

Lemma getAllTasks_lists_first_description_witness :
  alias_mapping Demo.bare_store 0 1 ∅
  ∧ plain_modules (H := Demo.with_two_directories) Demo.two_directories
      Demo.two_directories_files
      (discovered (H := Demo.with_two_directories) Demo.two_directories ["/one"; "/two"])
  ∧ Forall (loads Demo.two_directories_files)
      (discovered (H := Demo.with_two_directories) Demo.two_directories ["/one"; "/two"])
  ∧ descriptions_of (H := Demo.with_two_directories) Demo.two_directories_files
      (discovered (H := Demo.with_two_directories) Demo.two_directories ["/one"; "/two"])
      "a"
    = [VStr ""; VStr "Second"]
  ∧ ∃ allTasks : obj,
      getAllTasks (H := Demo.with_two_directories) ["/one"; "/two"] 0
        (State Demo.bare_store Demo.two_directories)
      = (Ok (Got (VRef 1)),
         State (<[1 := CObj allTasks]> (Demo.bare_store ++ [CObj ∅]))
           Demo.two_directories)
      ∧ allTasks !! "a" = Some (VStr "Second")
      ∧ allTasks !! "b" = Some (VStr "").
Proof.
  assert (Hplain : plain_modules (H := Demo.with_two_directories) Demo.two_directories
                     Demo.two_directories_files
                     (discovered (H := Demo.with_two_directories) Demo.two_directories
                        ["/one"; "/two"])) by apply demo_plain_modules.
  assert (Hloads : Forall (loads Demo.two_directories_files)
                     (discovered (H := Demo.with_two_directories) Demo.two_directories
                        ["/one"; "/two"])).
  { repeat constructor; eexists; reflexivity. }
  split; [exact demo_bare_alias_mapping|]. split; [exact Hplain|].
  split; [exact Hloads|]. split; [reflexivity|].
  destruct (getAllTasks_lists_first_description (H := Demo.with_two_directories)
              ["/one"; "/two"] 0 1 ∅ Demo.two_directories_files
              (State Demo.bare_store Demo.two_directories)
              demo_bare_alias_mapping Hplain Hloads) as (allTasks & Hrun & Hlisted).
  exists allTasks. split; [exact Hrun|]. split.
  - apply (Hlisted "a"); [reflexivity|discriminate].
  - apply (Hlisted "b"); [reflexivity|discriminate].
Defined.

(** ** Aliases at the edges *)

Section alias_edges.
Context {W : Type} {H : Host W}.

Lemma forEach_addTask_null (filenames : list string) (s : state W) :
  forEach filenames (addTask VNull) s
  = (match filenames with [] => Ok tt | _ => Throw TypeError end, s).
Proof. by destruct filenames. Qed.

Lemma forEach_directories_null (directories : list string) (s : state W) :
  forEach directories (λ dir,
    let! tasks := gets (λ s, glob_sync (world s) (dir +:+ "/*/index.js")) in
    forEach tasks (addTask VNull)) s
  = (match discovered (world s) directories with
     | [] => Ok tt
     | _ => Throw TypeError
     end, s).
Proof.
  induction directories as [|dir rest IH]; cbn; [done|].
  unfold bind at 1. unfold bind at 1. unfold gets at 1. cbv beta iota.
  rewrite forEach_addTask_null.
  destruct (glob_sync (world s) (dir +:+ "/*/index.js")) as [|filename tasks]; cbn.
  - exact IH.
  - done.
Qed.

(** X17: options that hold [null] under [aliases] stop the runner before
    anything is logged or run: [run] and [runAlias] throw a [TypeError] for
    every name, and [getAllTasks] throws it as soon as the scan finds an
    entry module, returning [null] when the scan finds none. *)
Theorem null_aliases_throw (name : string) (directories : list string)
    (options : loc) (opts : obj) (argv : value) (s : state W) :
  heap s !! options = Some (CObj opts) →
  opts !! "aliases" = Some VNull →
  let s1 := State (heap s ++ [CObj ∅]) (world s) in
  run (One name) directories options argv s = (Throw TypeError, s1)
  ∧ runAlias name directories options argv s = (Throw TypeError, s1)
  ∧ getAllTasks directories options s
    = (match discovered (world s) directories with
       | [] => Ok VNull
       | _ => Throw TypeError
       end, s1).
Proof.
  intros Hopts Hnull s1.
  assert (Hprop : prop opts "aliases" = VNull) by (unfold prop; by rewrite Hnull).
  assert (Hentry : alias_entry (heap s) options name = Throw TypeError).
  { unfold alias_entry, aliases_of, lodash_get.
    by rewrite (object_at_lookup _ _ _ Hopts), Hprop. }
  split; [|split].
  - unfold run, run1. by rewrite bind_alias_entry, Hentry.
  - by rewrite runAlias_unfold, Hentry.
  - unfold getAllTasks, getAllAliases.
    unfold bind at 1. unfold bind at 1. unfold alloc, gets. cbn.
    rewrite object_at_alloc, (object_at_lookup _ _ _ Hopts).
    unfold lodash_get. rewrite Hprop. cbn [is_undefined].
    unfold bind. rewrite forEach_directories_null. cbn [world].
    by destruct (discovered (world s) directories).
Qed.

(** X18: an alias with an empty list is an alias all the same.  [run] with
    its name logs the line of the alias and returns, without a task run and
    without a look for a task of that name. *)
Theorem empty_alias_runs_nothing (aliasName : string) (directories : list string)
    (options l : loc) (aliases : obj) (argv : value) (s : state W) :
  alias_mapping (heap s) options l aliases →
  aliases !! aliasName = Some (VArr []) →
  run (One aliasName) directories options argv s
  = (Ok tt,
     State ((heap s ++ [CObj ∅]) ++ [CObj ∅])
       (console_log (chalk_yellow ("Running alias " +:+ aliasName +:+ "..."))
          (world s))).
Proof.
  intros (_ & _ & Hentry)%alias_mapping_read Hlookup.
  assert (Hprop : prop aliases aliasName = VArr []) by (unfold prop; by rewrite Hlookup).
  unfold run, run1. rewrite bind_alias_entry, Hentry, Hprop.
  change (truthy (Got (VArr []))) with true. cbv iota.
  rewrite runAlias_unfold. cbn [heap world].
  by rewrite alias_entry_alloc, Hentry, Hprop.
Qed.

End alias_edges.

Lemma null_aliases_throw_witness :
  Demo.null_aliases_store !! 0 = Some (CObj {[ "aliases" := VNull ]})
  ∧ ({[ "aliases" := VNull ]} : obj) !! "aliases" = Some VNull
  ∧ run (H := Demo.with_tasks) (One "a") ["/tasks"] 0 (VRef 1)
      (State Demo.null_aliases_store Demo.tasks_world)
    = (Throw TypeError, State (Demo.null_aliases_store ++ [CObj ∅]) Demo.tasks_world)
  ∧ getAllTasks (H := Demo.with_tasks) ["/tasks"] 0
      (State Demo.null_aliases_store Demo.tasks_world)
    = (Throw TypeError, State (Demo.null_aliases_store ++ [CObj ∅]) Demo.tasks_world).
Proof.
  split; [reflexivity|]. split; [reflexivity|].
  destruct (null_aliases_throw (H := Demo.with_tasks) "a" ["/tasks"] 0
              {[ "aliases" := VNull ]} (VRef 1)
              (State Demo.null_aliases_store Demo.tasks_world) eq_refl eq_refl)
    as (Hrun & _ & Hall).
  split; [exact Hrun|exact Hall].
Defined.

Lemma demo_empty_alias_mapping :
  alias_mapping Demo.empty_alias_store 0 1 {[ "a" := VArr [] ]}.
Proof. by eapply aliases_given. Qed.

Lemma empty_alias_runs_nothing_witness :
  alias_mapping Demo.empty_alias_store 0 1 {[ "a" := VArr [] ]}
  ∧ ({[ "a" := VArr [] ]} : obj) !! "a" = Some (VArr [])
  ∧ run (H := Demo.with_tasks) (One "a") ["/tasks"] 0 (VRef 2)
      (State Demo.empty_alias_store Demo.tasks_world)
    = (Ok tt,
       State (Demo.empty_alias_store ++ [CObj ∅; CObj ∅])
         (Demo.log "Running alias a..." Demo.tasks_world)).
Proof.
  split; [exact demo_empty_alias_mapping|]. split; [reflexivity|].
  exact (empty_alias_runs_nothing (H := Demo.with_tasks) "a" ["/tasks"] 0 1 _ (VRef 2)
           (State Demo.empty_alias_store Demo.tasks_world)
           demo_empty_alias_mapping eq_refl).
Defined.
